(** * Telemetry retry queue: a shallow embedding

    The development follows [packages/cloud/src/telemetry]:
    - [TelemetryQueue]: the persisted queue of failed telemetry events
      kept in the host's [globalState] key/value store;
    - [TelemetryRetryManager]: the retry cycle that dispatches queued
      events in batches and tracks the connection status;
    and the listener of its callbacks, [TelemetryStatusMonitor], which
    keeps the status bar item and shows rate-limited notifications.

    JavaScript numbers are modelled as [Z] (timestamps in milliseconds,
    configuration values) and [nat] (array lengths, [retryCount], which is
    created as 0 and only ever incremented).  The host is modelled by three
    oracles: the clock read by [Date.now()], the random suffix produced by
    [Math.random()] and the injected [sendEvent] transport.  Each oracle is
    indexed by the number of calls made so far, so every theorem holds for
    arbitrary clocks, random sources and transports.  Each method is run to
    completion before the next one starts: calls that interleave at an
    [await] are outside the model. *)

From stdpp Require Import base option list gmap strings pretty sorting.
From Stdlib Require Import ZArith Lia.

Local Open Scope Z_scope.

(** ** Data model *)

Inductive PropertyValue :=
  | PString (s : string)
  | PNumber (n : Z).

(** [TelemetryEvent] of [@roo-code/types]: an event name and its properties.
    The queue never inspects it. *)
Record TelemetryEvent := mkTelemetryEvent {
  eventName : string;
  properties : list (string * PropertyValue)
}.

Record QueuedTelemetryEvent := mkQueued {
  id : string;
  event : TelemetryEvent;
  timestamp : Z;
  retryCount : nat;
  lastRetryTimestamp : option Z;
  error : option string
}.

Record TelemetryQueueConfig := mkQueueConfig {
  maxQueueSize : Z;
  maxRetries : Z;
  queueSizeWarningThreshold : Z
}.

Definition DEFAULT_QUEUE_CONFIG : TelemetryQueueConfig :=
  {| maxQueueSize := 1000; maxRetries := 5; queueSizeWarningThreshold := 100 |}.

(** [onConnectionStatusChange] and [onQueueSizeChange] are optional
    callbacks: the flag says whether one is supplied, and every invocation
    is recorded in the [notifications] trace of the system state. *)
Record RetryManagerConfig := mkRetryConfig {
  retryIntervalMs : Z;
  batchSize : Z;
  onConnectionStatusChange : bool;
  onQueueSizeChange : bool
}.

Definition DEFAULT_RETRY_CONFIG : RetryManagerConfig :=
  {| retryIntervalMs := 30000; batchSize := 10;
     onConnectionStatusChange := false; onQueueSizeChange := false |}.

(** Values held by [globalState]. *)
Record QueueSizeRecord := mkSizeRecord {
  recordedSize : nat;
  lastUpdated : Z
}.

Inductive StoreValue :=
  | VQueue (q : list QueuedTelemetryEvent)
  | VMetadata (m : QueueSizeRecord).

Definition QUEUE_KEY : string := "telemetryQueue".
Definition QUEUE_METADATA_KEY : string := "telemetryQueueMetadata".

(** What a thrown or rejected value looks like to
    [error instanceof Error ? error.message : String(error)]: an [Error]
    with its message, any other value with its string conversion, or a
    value on which the conversion itself throws (an object without
    prototype, an object whose [toString] throws), with what it throws. *)
Inductive Thrown :=
  | ErrorObject (message : string)
  | OtherValue (asString : string)
  | Unprintable (raised : Thrown).

(** Completion of an awaited computation: normal with a value, or abrupt. *)
Inductive Completion (A : Type) :=
  | Normal (v : A)
  | Throw (e : Thrown).
Arguments Normal {A} v.
Arguments Throw {A} e.

(** An element of the array [Promise.allSettled] resolves to. *)
Inductive Settled (A : Type) :=
  | fulfilled (value : A)
  | rejected (reason : Thrown).
Arguments fulfilled {A} value.
Arguments rejected {A} reason.

Inductive Notification :=
  | ConnectionStatusChanged (connected : bool)
  | QueueSizeChanged (size : nat) (isAboveThreshold : bool).

Record QueueMetadata := mkMetadata {
  size : nat;
  oldestEventTimestamp : option Z;
  newestEventTimestamp : option Z;
  isAboveWarningThreshold : bool
}.

(** The three host oracles, each indexed by the number of earlier calls. *)
Record Host := mkHost {
  clock : nat -> Z;
  random36 : nat -> string;
  transport : nat -> TelemetryEvent -> Completion unit
}.

(** ** System state

    The store, the traces of observable effects, the oracle counters and the
    private fields of the retry manager. *)
Record Sys := mkSys {
  globalState : gmap string StoreValue;
  updateCalls : list (string * option StoreValue);
  dateNowCalls : nat;
  randomCalls : nat;
  sent : list TelemetryEvent;
  notifications : list Notification;
  isProcessing : bool;
  isConnected : bool;
  lastConnectionCheck : Z
}.

Definition initialSys : Sys :=
  {| globalState := ∅; updateCalls := []; dateNowCalls := 0%nat;
     randomCalls := 0%nat; sent := []; notifications := [];
     isProcessing := false; isConnected := true;
     lastConnectionCheck := 0 |}.

Definition set_store (g : gmap string StoreValue)
    (u : list (string * option StoreValue)) (s : Sys) : Sys :=
  {| globalState := g; updateCalls := u; dateNowCalls := dateNowCalls s;
     randomCalls := randomCalls s; sent := sent s;
     notifications := notifications s; isProcessing := isProcessing s;
     isConnected := isConnected s;
     lastConnectionCheck := lastConnectionCheck s |}.

Definition set_dateNowCalls (n : nat) (s : Sys) : Sys :=
  {| globalState := globalState s; updateCalls := updateCalls s;
     dateNowCalls := n; randomCalls := randomCalls s; sent := sent s;
     notifications := notifications s; isProcessing := isProcessing s;
     isConnected := isConnected s;
     lastConnectionCheck := lastConnectionCheck s |}.

Definition set_randomCalls (n : nat) (s : Sys) : Sys :=
  {| globalState := globalState s; updateCalls := updateCalls s;
     dateNowCalls := dateNowCalls s; randomCalls := n; sent := sent s;
     notifications := notifications s; isProcessing := isProcessing s;
     isConnected := isConnected s;
     lastConnectionCheck := lastConnectionCheck s |}.

Definition set_sent (l : list TelemetryEvent) (s : Sys) : Sys :=
  {| globalState := globalState s; updateCalls := updateCalls s;
     dateNowCalls := dateNowCalls s; randomCalls := randomCalls s; sent := l;
     notifications := notifications s; isProcessing := isProcessing s;
     isConnected := isConnected s;
     lastConnectionCheck := lastConnectionCheck s |}.

Definition set_notifications (l : list Notification) (s : Sys) : Sys :=
  {| globalState := globalState s; updateCalls := updateCalls s;
     dateNowCalls := dateNowCalls s; randomCalls := randomCalls s;
     sent := sent s; notifications := l; isProcessing := isProcessing s;
     isConnected := isConnected s;
     lastConnectionCheck := lastConnectionCheck s |}.

Definition set_isProcessing (b : bool) (s : Sys) : Sys :=
  {| globalState := globalState s; updateCalls := updateCalls s;
     dateNowCalls := dateNowCalls s; randomCalls := randomCalls s;
     sent := sent s; notifications := notifications s; isProcessing := b;
     isConnected := isConnected s;
     lastConnectionCheck := lastConnectionCheck s |}.

Definition set_isConnected (b : bool) (s : Sys) : Sys :=
  {| globalState := globalState s; updateCalls := updateCalls s;
     dateNowCalls := dateNowCalls s; randomCalls := randomCalls s;
     sent := sent s; notifications := notifications s;
     isProcessing := isProcessing s; isConnected := b;
     lastConnectionCheck := lastConnectionCheck s |}.

Definition set_lastConnectionCheck (t : Z) (s : Sys) : Sys :=
  {| globalState := globalState s; updateCalls := updateCalls s;
     dateNowCalls := dateNowCalls s; randomCalls := randomCalls s;
     sent := sent s; notifications := notifications s;
     isProcessing := isProcessing s; isConnected := isConnected s;
     lastConnectionCheck := t |}.

(** ** The monad of awaited computations

    An [async] method is a state transformer over [Sys]; [await] is
    sequencing.  The store and the observer callbacks are assumed not to
    throw, so only the transport has abrupt completions. *)
Definition Async (A : Type) : Type := Sys -> A * Sys.

Definition ret {A} (a : A) : Async A := fun s => (a, s).

Definition bind {A B} (m : Async A) (k : A -> Async B) : Async B :=
  fun s => let p := m s in k (fst p) (snd p).

Notation "x <- m ;; k" := (bind m (fun x => k))
  (at level 100, m at next level, right associativity).
Notation "m ;;; k" := (bind m (fun _ => k))
  (at level 100, right associativity).

Definition run {A} (m : Async A) (s : Sys) : Sys := snd (m s).
Definition result {A} (m : Async A) (s : Sys) : A := fst (m s).

(** JavaScript truthiness of the two optional values the code tests. *)
Definition truthy_number (t : option Z) : bool :=
  match t with
  | None => false
  | Some n => negb (n =? 0)
  end.

Definition truthy_string (e : option string) : bool :=
  match e with
  | None => false
  | Some s => negb (String.eqb s "")
  end.

(** [Array.prototype.findIndex]; [None] stands for [-1]. *)
Definition findIndex {A} (P : A -> Prop) `{forall x, Decision (P x)}
    (l : list A) : option nat :=
  fst <$> list_find P l.

(** [Array.prototype.shift], for its effect on the array. *)
Definition shift {A} (l : list A) : list A := drop 1 l.

Section Queue.

Variable host : Host.
Variable config : TelemetryQueueConfig.

Definition Date_now : Async Z :=
  fun s => (clock host (dateNowCalls s), set_dateNowCalls (S (dateNowCalls s)) s).

Definition Math_random_suffix : Async string :=
  fun s => (random36 host (randomCalls s), set_randomCalls (S (randomCalls s)) s).

Definition globalState_get (key : string) : Async (option StoreValue) :=
  fun s => (globalState s !! key, s).

(** [globalState.update(key, value)]; [None] is [undefined], which removes
    the key. *)
Definition globalState_update (key : string) (value : option StoreValue)
    : Async unit :=
  fun s =>
    (tt, set_store
           (match value with
            | Some v => <[key := v]> (globalState s)
            | None => delete key (globalState s)
            end)
           (updateCalls s ++ [(key, value)]) s).

Definition getQueue : Async (list QueuedTelemetryEvent) :=
  v <- globalState_get QUEUE_KEY ;;
  ret (match v with
       | Some (VQueue q) => q
       | _ => []
       end).

Definition saveQueue (queue : list QueuedTelemetryEvent) : Async unit :=
  globalState_update QUEUE_KEY (Some (VQueue queue)).

Definition updateMetadata (queue : list QueuedTelemetryEvent) : Async unit :=
  now <- Date_now ;;
  globalState_update QUEUE_METADATA_KEY
    (Some (VMetadata {| recordedSize := length queue; lastUpdated := now |})).

Definition generateId : Async string :=
  now <- Date_now ;;
  suffix <- Math_random_suffix ;;
  ret (pretty now +:+ "-" +:+ suffix).

Definition enqueue (ev : TelemetryEvent) (err : option string) : Async unit :=
  queue <- getQueue ;;
  let queue :=
    if maxQueueSize config <=? Z.of_nat (length queue)
    then shift queue else queue in
  newId <- generateId ;;
  now <- Date_now ;;
  let queuedEvent :=
    {| id := newId; event := ev; timestamp := now; retryCount := 0%nat;
       lastRetryTimestamp := None; error := err |} in
  let queue := queue ++ [queuedEvent] in
  saveQueue queue ;;;
  updateMetadata queue.

(** The predicate of the [filter] in [getEventsForRetry]. *)
Definition readyForRetry (now : Z) (item : QueuedTelemetryEvent) : bool :=
  if maxRetries config <=? Z.of_nat (retryCount item) then false
  else if negb (truthy_number (lastRetryTimestamp item)) then true
  else
    let backoffMs := 2 ^ Z.of_nat (retryCount item) * 1000 in
    let nextRetryTime := default 0 (lastRetryTimestamp item) + backoffMs in
    nextRetryTime <=? now.

Definition getEventsForRetry : Async (list QueuedTelemetryEvent) :=
  queue <- getQueue ;;
  now <- Date_now ;;
  ret (filter (fun item => readyForRetry now item) queue).

Definition markFailed (now : Z) (err : option string)
    (item : QueuedTelemetryEvent) : QueuedTelemetryEvent :=
  {| id := id item; event := event item; timestamp := timestamp item;
     retryCount := S (retryCount item);
     lastRetryTimestamp := Some now;
     error := err |}.

Definition updateEventAfterRetry (i : string) (success : bool)
    (err : option string) : Async unit :=
  queue <- getQueue ;;
  match findIndex (fun item => id item = i) queue with
  | None => ret tt
  | Some index =>
      queue <- (if success
                then ret (delete index queue)
                else (now <- Date_now ;;
                      ret (alter (markFailed now err) index queue))) ;;
      saveQueue queue ;;;
      updateMetadata queue
  end.

Definition getQueueSize : Async nat :=
  queue <- getQueue ;;
  ret (length queue).

Definition getQueueMetadata : Async QueueMetadata :=
  queue <- getQueue ;;
  let size := length queue in
  ret {| size := size;
         oldestEventTimestamp := timestamp <$> queue !! 0%nat;
         newestEventTimestamp := timestamp <$> last queue;
         isAboveWarningThreshold :=
           queueSizeWarningThreshold config <=? Z.of_nat size |}.

Definition clear : Async unit :=
  saveQueue [] ;;;
  globalState_update QUEUE_METADATA_KEY None.

Definition pruneFailedEvents : Async nat :=
  queue <- getQueue ;;
  let originalSize := length queue in
  let prunedQueue :=
    filter (fun item => Z.of_nat (retryCount item) < maxRetries config) queue in
  (if negb (length prunedQueue =? originalSize)%nat
   then saveQueue prunedQueue ;;; updateMetadata prunedQueue
   else ret tt) ;;;
  ret (originalSize - length prunedQueue)%nat.

Definition getAllEvents : Async (list QueuedTelemetryEvent) := getQueue.

End Queue.

(** The queue currently persisted, as [getQueue] reads it. *)
Definition queueOf (s : Sys) : list QueuedTelemetryEvent := result getQueue s.

(** *** Drivers and vocabulary used to state the properties of the queue *)

(** The record [enqueue] builds when it is called in state [s]. *)
Definition queuedEventOf (host : Host) (ev : TelemetryEvent)
    (err : option string) (s : Sys) : QueuedTelemetryEvent :=
  {| id := pretty (clock host (dateNowCalls s)) +:+ "-" +:+
           random36 host (randomCalls s);
     event := ev;
     timestamp := clock host (S (dateNowCalls s));
     retryCount := 0%nat;
     lastRetryTimestamp := None;
     error := err |}.

(** A sequence of [enqueue] calls, one per (event, error) pair. *)
Fixpoint enqueueAll (host : Host) (config : TelemetryQueueConfig)
    (calls : list (TelemetryEvent * option string)) : Async unit :=
  match calls with
  | [] => ret tt
  | (ev, err) :: rest =>
      enqueue host config ev err ;;; enqueueAll host config rest
  end.

(** The records created by that sequence of calls, oldest first. *)
Fixpoint created (host : Host) (config : TelemetryQueueConfig)
    (calls : list (TelemetryEvent * option string)) (s : Sys)
    : list QueuedTelemetryEvent :=
  match calls with
  | [] => []
  | (ev, err) :: rest =>
      queuedEventOf host ev err s ::
      created host config rest (run (enqueue host config ev err) s)
  end.

Definition payload (item : QueuedTelemetryEvent)
    : TelemetryEvent * option string :=
  (event item, error item).

(** The eligibility rule in the words of the specification:
    [retryCount < maxRetries] and either [lastRetryTimestamp] is unset or
    [now] has reached [lastRetryTimestamp + 2^retryCount] seconds. *)
Definition eligibleBySpec (config : TelemetryQueueConfig) (now : Z)
    (item : QueuedTelemetryEvent) : Prop :=
  Z.of_nat (retryCount item) < maxRetries config /\
  (lastRetryTimestamp item = None \/
   exists t, lastRetryTimestamp item = Some t /\
             t + 2 ^ Z.of_nat (retryCount item) * 1000 <= now).

(** ** TelemetryRetryManager *)

(** [try { body } catch (e) { handler }] on completions. *)
Definition try_catch {A} (body : Completion A)
    (handler : Thrown -> Completion A) : Completion A :=
  match body with
  | Normal v => Normal v
  | Throw e => handler e
  end.

(** Sequencing after an awaited promise: a rejection propagates. *)
Definition and_then {A B} (c : Completion A) (k : A -> Completion B)
    : Completion B :=
  match c with
  | Normal v => k v
  | Throw e => Throw e
  end.

(** How the promise of an async function settles. *)
Definition settle {A} (c : Completion A) : Settled A :=
  match c with
  | Normal v => fulfilled v
  | Throw e => rejected e
  end.

(** [error instanceof Error ? error.message : String(error)]: the text, or
    the abrupt completion of [String(error)]. *)
Definition errorText (e : Thrown) : Completion string :=
  match e with
  | ErrorObject message => Normal message
  | OtherValue asString => Normal asString
  | Unprintable raised => Throw raised
  end.

(** The value each dispatch task resolves to: [{ id, success, error }]. *)
Record DispatchOutcome := mkOutcome {
  outcomeId : string;
  success : bool;
  outcomeError : option string
}.

(** [Array.prototype.slice(start, end)] with its index normalisation. *)
Definition slice {T} (start stop : Z) (l : list T) : list T :=
  let len := Z.of_nat (length l) in
  let norm k := if k <? 0 then Z.max (len + k) 0 else Z.min k len in
  take (Z.to_nat (norm stop - norm start)) (drop (Z.to_nat (norm start)) l).

(** The [for] loop of [createBatches].  The loop counter advances by
    [batchSize]; the test [i < items.length] is made before an iteration is
    charged to the fuel, and [None] means the fuel ran out. *)
Fixpoint createBatches_loop {T} (fuel : nat) (i : Z) (items : list T)
    (batchSize : Z) (batches : list (list T)) : option (list (list T)) :=
  if i <? Z.of_nat (length items) then
    match fuel with
    | O => None
    | S fuel' =>
        createBatches_loop fuel' (i + batchSize) items batchSize
          (batches ++ [slice i (i + batchSize) items])
    end
  else Some batches.

(** [None] stands for a loop that never ends (a [batchSize] below 1 on a
    non-empty array); [length items] iterations are enough otherwise. *)
Definition createBatches {T} (items : list T) (batchSize : Z)
    : option (list (list T)) :=
  createBatches_loop (length items) 0 items batchSize [].

Definition connectionCheckInterval : Z := 60000.

Definition connectionCheckEvent (now : Z) : TelemetryEvent :=
  {| eventName := "telemetry_connection_check";
     properties := [("timestamp"%string, PNumber now)] |}.

Section RetryManager.

Variable host : Host.
Variable queueConfig : TelemetryQueueConfig.
Variable config : RetryManagerConfig.

Definition read {A} (field : Sys -> A) : Async A := fun s => (field s, s).
Definition write (setter : Sys -> Sys) : Async unit := fun s => (tt, setter s).

Definition invoke (n : Notification) : Async unit :=
  write (fun s => set_notifications (notifications s ++ [n]) s).

(** The injected [sendEvent]: the payload is recorded in [sent] and the
    transport oracle decides how the promise completes. *)
Definition sendEvent (ev : TelemetryEvent) : Async (Completion unit) :=
  fun s => (transport host (length (sent s)) ev, set_sent (sent s ++ [ev]) s).

Definition updateConnectionStatus (connected : bool) : Async unit :=
  current <- read isConnected ;;
  if Bool.eqb current connected then ret tt
  else
    write (set_isConnected connected) ;;;
    if onConnectionStatusChange config
    then invoke (ConnectionStatusChanged connected)
    else ret tt.

Definition notifyQueueSizeChange : Async unit :=
  metadata <- getQueueMetadata queueConfig ;;
  if onQueueSizeChange config
  then invoke (QueueSizeChanged (size metadata) (isAboveWarningThreshold metadata))
  else ret tt.

Definition queueFailedEvent (ev : TelemetryEvent) (err : option string)
    : Async unit :=
  enqueue host queueConfig ev err ;;;
  connected <- read isConnected ;;
  (if truthy_string err && connected
   then updateConnectionStatus false
   else ret tt) ;;;
  notifyQueueSizeChange.

Definition getConnectionStatus : Async bool := read isConnected.

(** The async arrow function mapped over the batch.  The [catch] handler
    builds the outcome record from the error text; when the conversion of
    the caught value throws, the handler completes abruptly and the promise
    of the task rejects. *)
Definition dispatchTask (queuedEvent : QueuedTelemetryEvent)
    : Async (Completion DispatchOutcome) :=
  sendResult <- sendEvent (event queuedEvent) ;;
  ret (try_catch
         (and_then sendResult (fun _ =>
            Normal {| outcomeId := id queuedEvent; success := true;
                      outcomeError := None |}))
         (fun e =>
            and_then (errorText e) (fun text =>
              Normal {| outcomeId := id queuedEvent; success := false;
                        outcomeError := Some text |}))).

(** [Promise.allSettled(items.map(task))]: the tasks are started in array
    order and the results come back in array order. *)
Fixpoint allSettled {A B} (task : A -> Async (Completion B)) (items : list A)
    : Async (list (Settled B)) :=
  match items with
  | [] => ret []
  | x :: rest =>
      c <- task x ;;
      settled <- allSettled task rest ;;
      ret (settle c :: settled)
  end.

(** The [for (const result of results)] loop with its two counters. *)
Fixpoint feedResults (results : list (Settled DispatchOutcome))
    (successCount failureCount : nat) : Async (nat * nat) :=
  match results with
  | [] => ret (successCount, failureCount)
  | fulfilled value :: rest =>
      updateEventAfterRetry host (outcomeId value) (success value)
        (outcomeError value) ;;;
      if success value
      then feedResults rest (S successCount) failureCount
      else feedResults rest successCount (S failureCount)
  | rejected _ :: rest => feedResults rest successCount failureCount
  end.

Definition processBatch (batch : list QueuedTelemetryEvent) : Async unit :=
  results <- allSettled dispatchTask batch ;;
  counts <- feedResults results 0%nat 0%nat ;;
  let successCount := fst counts in
  let failureCount := snd counts in
  connected <- read isConnected ;;
  if (0 <? successCount)%nat && negb connected
  then updateConnectionStatus true
  else if (failureCount =? length batch)%nat && connected
  then updateConnectionStatus false
  else ret tt.

Definition checkConnectionStatus : Async unit :=
  now <- Date_now host ;;
  lastCheck <- read lastConnectionCheck ;;
  if now - lastCheck <? connectionCheckInterval then ret tt
  else
    write (set_lastConnectionCheck now) ;;;
    sendResult <- sendEvent (connectionCheckEvent now) ;;
    connected <- read isConnected ;;
    match sendResult with
    | Normal _ => if negb connected then updateConnectionStatus true else ret tt
    | Throw _ => if connected then updateConnectionStatus false else ret tt
    end.

Fixpoint processBatches (batches : list (list QueuedTelemetryEvent))
    : Async unit :=
  match batches with
  | [] => ret tt
  | batch :: rest => processBatch batch ;;; processBatches rest
  end.

(** The [try] block of [processQueue]; [None] means that [createBatches]
    never returns.  The [console.log] calls are left out.  No step of the
    block throws in this model, so the [catch] clause, which only logs, has
    nothing to catch. *)
Definition processQueue_try (s : Sys) : option Sys :=
  let s1 := run (pruneFailedEvents host queueConfig) s in
  let eventsToRetry := result (getEventsForRetry host queueConfig) s1 in
  let s2 := run (getEventsForRetry host queueConfig) s1 in
  if (length eventsToRetry =? 0)%nat then Some s2
  else
    match createBatches eventsToRetry (batchSize config) with
    | None => None
    | Some batches =>
        Some (run (processBatches batches ;;;
                   checkConnectionStatus ;;;
                   notifyQueueSizeChange) s2)
    end.

(** [processQueue]: the guard, the [try] block and the [finally] clause
    that resets the guard. *)
Definition processQueue (s : Sys) : option Sys :=
  if isProcessing s then Some s
  else set_isProcessing false <$> processQueue_try (set_isProcessing true s).

Definition triggerRetry : Sys -> option Sys := processQueue.

End RetryManager.

(** *** Vocabulary used to state the properties of the retry manager *)

(** The private fields of the manager and the traces it alone extends. *)
Definition managerView (s : Sys)
    : list TelemetryEvent * list Notification * bool * bool * Z :=
  (sent s, notifications s, isProcessing s, isConnected s,
   lastConnectionCheck s).

(** Did the [n]-th call of the transport, made with [ev], resolve? *)
Definition sendSucceeds (host : Host) (n : nat) (ev : TelemetryEvent) : bool :=
  match transport host n ev with
  | Normal _ => true
  | Throw _ => false
  end.

(** How the promise of the task that makes the [n]-th transport call
    settles: with a success record when the send resolves, with a failure
    record carrying the error text when the send rejects and the text can
    be obtained, and rejected when obtaining the text throws. *)
Definition settledOf (host : Host) (n : nat) (queuedEvent : QueuedTelemetryEvent)
    : Settled DispatchOutcome :=
  match transport host n (event queuedEvent) with
  | Normal _ =>
      fulfilled {| outcomeId := id queuedEvent; success := true;
                   outcomeError := None |}
  | Throw e =>
      match errorText e with
      | Normal text =>
          fulfilled {| outcomeId := id queuedEvent; success := false;
                       outcomeError := Some text |}
      | Throw raised => rejected raised
      end
  end.

(** Results of a batch whose first send is transport call number [n]. *)
Fixpoint batchResults (host : Host) (n : nat)
    (batch : list QueuedTelemetryEvent) : list (Settled DispatchOutcome) :=
  match batch with
  | [] => []
  | queuedEvent :: rest =>
      settledOf host n queuedEvent :: batchResults host (S n) rest
  end.

(** The values of the fulfilled results, in order. *)
Definition fulfilledValues {A} (results : list (Settled A)) : list A :=
  omap (fun r => match r with
                 | fulfilled value => Some value
                 | rejected _ => None
                 end) results.

(** The outcome records the result loop of [processBatch] gets to see. *)
Definition batchOutcomes (host : Host) (n : nat)
    (batch : list QueuedTelemetryEvent) : list DispatchOutcome :=
  fulfilledValues (batchResults host n batch).

(** Does the string conversion of the value the [n]-th transport call
    rejects with throw? *)
Definition conversionThrows (host : Host) (n : nat) (ev : TelemetryEvent)
    : bool :=
  match transport host n ev with
  | Normal _ => false
  | Throw e => match errorText e with
               | Normal _ => false
               | Throw _ => true
               end
  end.

(** One call of [updateEventAfterRetry] per outcome, in order. *)
Definition feedBack (host : Host) (outcomes : list DispatchOutcome) (s : Sys)
    : Sys :=
  foldl (fun st o =>
           run (updateEventAfterRetry host (outcomeId o) (success o)
                  (outcomeError o)) st)
        s outcomes.

(** The arguments of the connection-status callback, oldest first. *)
Definition statusCallbacks (l : list Notification) : list bool :=
  omap (fun n => match n with
                 | ConnectionStatusChanged b => Some b
                 | QueueSizeChanged _ _ => None
                 end) l.

(** [edges b l b']: a boolean that starts at [b] and ends at [b'] took the
    successive values [l], each one different from the value before it. *)
Inductive edges : bool -> list bool -> bool -> Prop :=
  | edges_nil b : edges b [] b
  | edges_cons b l b' : edges (negb b) l b' -> edges b (negb b :: l) b'.

(** Between [s] and [s'] the status callback was invoked with exactly the
    successive values the [isConnected] field took. *)
Definition edgeTriggered (s s' : Sys) : Prop :=
  exists l,
    statusCallbacks (notifications s') = statusCallbacks (notifications s) ++ l /\
    edges (isConnected s) l (isConnected s').

(** ** Concrete scenarios *)

Definition sampleEvent (name : string) : TelemetryEvent :=
  {| eventName := name; properties := [] |}.

(** A clock that advances by one millisecond per reading and a transport
    that always resolves. *)
Definition steadyHost : Host :=
  {| clock := fun n => 1700000000000 + Z.of_nat n;
     random36 := fun n => "r" +:+ pretty n;
     transport := fun _ _ => Normal tt |}.

(** The same clock with a transport that always rejects. *)
Definition offlineHost : Host :=
  {| clock := fun n => 1700000000000 + Z.of_nat n;
     random36 := fun n => "r" +:+ pretty n;
     transport := fun _ _ => Throw (ErrorObject "Network error") |}.

(** A clock that reads 0 for its first five readings and 1000 afterwards. *)
Definition epochHost : Host :=
  {| clock := fun n => if (n <? 5)%nat then 0 else 1000;
     random36 := fun n => "r" +:+ pretty n;
     transport := fun _ _ => Normal tt |}.

Definition smallQueueConfig : TelemetryQueueConfig :=
  {| maxQueueSize := 3; maxRetries := 5; queueSizeWarningThreshold := 2 |}.

Definition zeroCapacityConfig : TelemetryQueueConfig :=
  {| maxQueueSize := 0; maxRetries := 5; queueSizeWarningThreshold := 100 |}.

Definition observedConfig : RetryManagerConfig :=
  {| retryIntervalMs := 30000; batchSize := 10;
     onConnectionStatusChange := true; onQueueSizeChange := true |}.

Definition fourCalls : list (TelemetryEvent * option string) :=
  [(sampleEvent "test-0", None); (sampleEvent "test-1", None);
   (sampleEvent "test-2", Some "Network error"%string);
   (sampleEvent "test-3", None)].

(** Four events enqueued into a queue of capacity 3. *)
Definition afterFourCalls : Sys :=
  run (enqueueAll steadyHost smallQueueConfig fourCalls) initialSys.

(** One event, enqueued and then failed once, all at clock value 0. *)
Definition failedAtEpoch : Sys :=
  run (enqueue epochHost DEFAULT_QUEUE_CONFIG (sampleEvent "test-1") None ;;;
       updateEventAfterRetry epochHost "0-r0" false (Some "Network error"%string))
      initialSys.

(** One event, enqueued and then failed five times. *)
Definition exhausted : Sys :=
  run (enqueue steadyHost DEFAULT_QUEUE_CONFIG (sampleEvent "test-1") None ;;;
       updateEventAfterRetry steadyHost "1700000000000-r0" false None ;;;
       updateEventAfterRetry steadyHost "1700000000000-r0" false None ;;;
       updateEventAfterRetry steadyHost "1700000000000-r0" false None ;;;
       updateEventAfterRetry steadyHost "1700000000000-r0" false None ;;;
       updateEventAfterRetry steadyHost "1700000000000-r0" false None)
      initialSys.

(** ** Sequences of queue calls and the invariants of the store *)

(** The public methods of [TelemetryQueue], as calls a client can make. *)
Inductive QueueCall :=
  | CallEnqueue (ev : TelemetryEvent) (err : option string)
  | CallGetEventsForRetry
  | CallUpdateEventAfterRetry (i : string) (ok : bool) (err : option string)
  | CallGetQueueSize
  | CallGetQueueMetadata
  | CallClear
  | CallPruneFailedEvents
  | CallGetAllEvents.

Definition discard {A} (m : Async A) : Async unit := m ;;; ret tt.

Definition queueCall (host : Host) (config : TelemetryQueueConfig)
    (c : QueueCall) : Async unit :=
  match c with
  | CallEnqueue ev err => enqueue host config ev err
  | CallGetEventsForRetry => discard (getEventsForRetry host config)
  | CallUpdateEventAfterRetry i ok err => updateEventAfterRetry host i ok err
  | CallGetQueueSize => discard getQueueSize
  | CallGetQueueMetadata => discard (getQueueMetadata config)
  | CallClear => clear
  | CallPruneFailedEvents => discard (pruneFailedEvents host config)
  | CallGetAllEvents => discard getAllEvents
  end.

Fixpoint queueCalls (host : Host) (config : TelemetryQueueConfig)
    (cs : list QueueCall) : Async unit :=
  match cs with
  | [] => ret tt
  | c :: rest => queueCall host config c ;;; queueCalls host config rest
  end.

(** The size record under [QUEUE_METADATA_KEY] agrees with the stored
    queue: it holds the queue's length, or is absent with an empty queue. *)
Definition metadataInSync (s : Sys) : Prop :=
  match globalState s !! QUEUE_METADATA_KEY with
  | Some (VMetadata m) => recordedSize m = length (queueOf s)
  | Some (VQueue _) => False
  | None => queueOf s = []
  end.

(** A clock that never runs backwards. *)
Definition clockMonotone (host : Host) : Prop :=
  forall m n, (m <= n)%nat -> clock host m <= clock host n.

(** The queue is ordered by enqueue time and no event is stamped later
    than the next reading of the clock. *)
Definition enqueueOrdered (host : Host) (s : Sys) : Prop :=
  StronglySorted Z.le (timestamp <$> queueOf s) /\
  Forall (fun item => timestamp item <= clock host (dateNowCalls s))
         (queueOf s).

(** What identifies a queued event for its whole life in the queue. *)
Definition identity (item : QueuedTelemetryEvent)
    : string * TelemetryEvent * Z :=
  (id item, event item, timestamp item).

(** [aged x y]: [y] is [x] after zero or more failed retries. *)
Definition aged (x y : QueuedTelemetryEvent) : Prop :=
  identity x = identity y /\ (retryCount x <= retryCount y)%nat.

(** [evolves q q']: [q'] is [q] with some events removed and the others
    aged, in the same order. *)
Inductive evolves
    : list QueuedTelemetryEvent -> list QueuedTelemetryEvent -> Prop :=
  | evolves_nil : evolves [] []
  | evolves_keep x y q q' : aged x y -> evolves q q' -> evolves (x :: q) (y :: q')
  | evolves_drop x q q' : evolves q q' -> evolves (x :: q) q'.

Definition isEnqueue (c : QueueCall) : bool :=
  match c with
  | CallEnqueue _ _ => true
  | _ => false
  end.

(** The part of the state the queue reads and writes. *)
Definition storeView (s : Sys)
    : gmap string StoreValue * list (string * option StoreValue) * nat :=
  (globalState s, updateCalls s, dateNowCalls s).

(** ** The retry timer

    [start] and [stop] of [TelemetryRetryManager].  The [retryTimer] field
    holds the handle [setInterval] returned, if any; [intervals] lists the
    intervals of this manager that the host still has active, each with its
    period, and [timersCreated] numbers the handles. *)
Record Scheduled := mkScheduled {
  managerState : Sys;
  retryTimer : option nat;
  intervals : list (nat * Z);
  timersCreated : nat
}.

Definition constructed (s : Sys) : Scheduled :=
  {| managerState := s; retryTimer := None; intervals := [];
     timersCreated := 0%nat |}.

(** [setInterval(callback, period)]: a fresh handle, registered. *)
Definition setInterval (period : Z) (m : Scheduled) : nat * Scheduled :=
  (timersCreated m,
   {| managerState := managerState m; retryTimer := retryTimer m;
      intervals := intervals m ++ [(timersCreated m, period)];
      timersCreated := S (timersCreated m) |}).

Definition clearInterval (handle : nat) (m : Scheduled) : Scheduled :=
  {| managerState := managerState m; retryTimer := retryTimer m;
     intervals := filter (fun t => t.1 <> handle) (intervals m);
     timersCreated := timersCreated m |}.

Definition set_retryTimer (t : option nat) (m : Scheduled) : Scheduled :=
  {| managerState := managerState m; retryTimer := t;
     intervals := intervals m; timersCreated := timersCreated m |}.

Definition start (config : RetryManagerConfig) (m : Scheduled) : Scheduled :=
  match retryTimer m with
  | Some _ => m
  | None =>
      let r := setInterval (retryIntervalMs config) m in
      set_retryTimer (Some (fst r)) (snd r)
  end.

Definition stop (m : Scheduled) : Scheduled :=
  match retryTimer m with
  | Some handle => set_retryTimer None (clearInterval handle m)
  | None => m
  end.

(** One period goes by: every active interval runs its callback, which calls
    [processQueue]. *)
Fixpoint fire (host : Host) (queueConfig : TelemetryQueueConfig)
    (config : RetryManagerConfig) (active : list (nat * Z)) (s : Sys)
    : option Sys :=
  match active with
  | [] => Some s
  | _ :: rest =>
      match processQueue host queueConfig config s with
      | Some s' => fire host queueConfig config rest s'
      | None => None
      end
  end.

Definition periodElapses (host : Host) (queueConfig : TelemetryQueueConfig)
    (config : RetryManagerConfig) (m : Scheduled) : option Sys :=
  fire host queueConfig config (intervals m) (managerState m).

Inductive TimerCall := CallStart | CallStop.

Definition timerCall (config : RetryManagerConfig) (c : TimerCall)
    (m : Scheduled) : Scheduled :=
  match c with
  | CallStart => start config m
  | CallStop => stop m
  end.

Definition timerCalls (config : RetryManagerConfig) (cs : list TimerCall)
    (m : Scheduled) : Scheduled :=
  foldl (fun m c => timerCall config c m) m cs.

(** The timer field and the host's list of active intervals agree. *)
Definition timerConsistent (config : RetryManagerConfig) (m : Scheduled)
    : Prop :=
  match retryTimer m with
  | Some handle =>
      intervals m = [(handle, retryIntervalMs config)] /\
      (handle < timersCreated m)%nat
  | None => intervals m = []
  end.

(** ** TelemetryStatusMonitor

    The listener of the two callbacks.  The status bar item is a record of
    what the code assigns to it; the messages passed to
    [showWarningMessage] and [showInformationMessage] are recorded in
    [shown] with the clock value at which they were shown.  What the user
    picks in a notification is outside the model. *)
Module TelemetryStatusMonitor.

Inductive Severity := info | warning.

Record StatusBarItem := mkStatusBarItem {
  text : string;
  tooltip : string;
  warningBackground : bool;
  visible : bool
}.

Record Monitor := mkMonitor {
  statusBarItem : StatusBarItem;
  lastNotificationTime : Z;
  isConnected : bool;
  queueSize : Z;
  isAboveThreshold : bool;
  dateNowCalls : nat;
  shown : list (Severity * string * Z)
}.

Definition notificationInterval : Z := 300000.

Definition set_statusBarItem (b : StatusBarItem) (m : Monitor) : Monitor :=
  {| statusBarItem := b; lastNotificationTime := lastNotificationTime m;
     isConnected := isConnected m; queueSize := queueSize m;
     isAboveThreshold := isAboveThreshold m; dateNowCalls := dateNowCalls m;
     shown := shown m |}.

Definition set_isConnected (b : bool) (m : Monitor) : Monitor :=
  {| statusBarItem := statusBarItem m;
     lastNotificationTime := lastNotificationTime m;
     isConnected := b; queueSize := queueSize m;
     isAboveThreshold := isAboveThreshold m; dateNowCalls := dateNowCalls m;
     shown := shown m |}.

Definition set_queue (size : Z) (above : bool) (m : Monitor) : Monitor :=
  {| statusBarItem := statusBarItem m;
     lastNotificationTime := lastNotificationTime m;
     isConnected := isConnected m; queueSize := size;
     isAboveThreshold := above; dateNowCalls := dateNowCalls m;
     shown := shown m |}.

(** [lines.join("\n")] *)
Definition joinLines (lines : list string) : string :=
  match lines with
  | [] => ""
  | first :: rest => foldl (fun acc l => acc +:+ String (Ascii.ascii_of_nat 10) l) first rest
  end.

Definition getTooltip (m : Monitor) : string :=
  let lines := ["Roo Code Telemetry Status"%string] in
  let lines :=
    lines ++ [if isConnected m
              then "✓ Connected to Roo Code Cloud"%string
              else "✗ Disconnected from Roo Code Cloud"%string] in
  let lines :=
    if 0 <? queueSize m
    then
      let lines :=
        lines ++ [pretty (queueSize m) +:+ " events queued for retry"] in
      if isAboveThreshold m
      then lines ++ ["⚠ Queue size above warning threshold"%string]
      else lines
    else lines in
  joinLines (lines ++ [""%string; "Click for more options"%string]).

Definition updateStatusBar (m : Monitor) : Monitor :=
  if negb (isConnected m) || (0 <? queueSize m)
  then
    let icon :=
      if isConnected m then "$(cloud-upload)"%string
      else "$(cloud-offline)"%string in
    let label :=
      if isConnected m then "Telemetry"%string
      else "Telemetry Offline"%string in
    let label :=
      if 0 <? queueSize m
      then label +:+ " (" +:+ pretty (queueSize m) +:+ " queued)"
      else label in
    let icon :=
      if (0 <? queueSize m) && isAboveThreshold m
      then "$(warning)"%string else icon in
    set_statusBarItem
      {| text := icon +:+ " " +:+ label;
         tooltip := getTooltip m;
         warningBackground := isAboveThreshold m;
         visible := true |} m
  else
    set_statusBarItem
      {| text := text (statusBarItem m); tooltip := tooltip (statusBarItem m);
         warningBackground := warningBackground (statusBarItem m);
         visible := false |} m.

(** [showNotification]: at most one notification per
    [notificationInterval]; a suppressed one is dropped. *)
Definition showNotification (host : Host) (message : string)
    (severity : Severity) (m : Monitor) : Monitor :=
  let now := clock host (dateNowCalls m) in
  if now - lastNotificationTime m <? notificationInterval
  then
    {| statusBarItem := statusBarItem m;
       lastNotificationTime := lastNotificationTime m;
       isConnected := isConnected m; queueSize := queueSize m;
       isAboveThreshold := isAboveThreshold m;
       dateNowCalls := S (dateNowCalls m); shown := shown m |}
  else
    {| statusBarItem := statusBarItem m;
       lastNotificationTime := now;
       isConnected := isConnected m; queueSize := queueSize m;
       isAboveThreshold := isAboveThreshold m;
       dateNowCalls := S (dateNowCalls m);
       shown := shown m ++ [(severity, message, now)] |}.

Definition connectionLost : string :=
  "Telemetry connection lost. Events will be queued and retried automatically.".
Definition connectionRestored : string :=
  "Telemetry connection restored. Queued events are being sent.".
Definition queueCleared : string :=
  "Telemetry queue cleared. All events have been sent.".
Definition queueBuildingUp (size : Z) : string :=
  "Telemetry queue is building up (" +:+ pretty size +:+
  " events). Check your connection to Roo Code Cloud.".

Definition onConnectionStatusChange (host : Host) (connected : bool)
    (m : Monitor) : Monitor :=
  let wasConnected := isConnected m in
  let m := updateStatusBar (set_isConnected connected m) in
  if wasConnected && negb connected
  then showNotification host connectionLost warning m
  else if negb wasConnected && connected
  then showNotification host connectionRestored info m
  else m.

Definition onQueueSizeChange (host : Host) (size : Z) (above : bool)
    (m : Monitor) : Monitor :=
  let wasAboveThreshold := isAboveThreshold m in
  let m := updateStatusBar (set_queue size above m) in
  if negb wasAboveThreshold && above
  then showNotification host (queueBuildingUp size) warning m
  else if wasAboveThreshold && negb above && (size =? 0)
  then showNotification host queueCleared info m
  else m.

(** The state the constructor leaves: the fields' initial values and the
    status bar item after the first [updateStatusBar]. *)
Definition constructedMonitor : Monitor :=
  updateStatusBar
    {| statusBarItem := {| text := ""; tooltip := "";
                           warningBackground := false; visible := false |};
       lastNotificationTime := 0; isConnected := true; queueSize := 0;
       isAboveThreshold := false; dateNowCalls := 0%nat; shown := [] |}.

(** [initialize]: [None] when there is no [CloudService] instance, else the
    connection status it reports. *)
Definition initialize (status : option bool) (m : Monitor) : Monitor :=
  match status with
  | None => m
  | Some connected => updateStatusBar (set_isConnected connected m)
  end.

(** A callback as the monitor receives it. *)
Definition deliver (host : Host) (n : Notification) (m : Monitor) : Monitor :=
  match n with
  | ConnectionStatusChanged connected =>
      onConnectionStatusChange host connected m
  | QueueSizeChanged size above =>
      onQueueSizeChange host (Z.of_nat size) above m
  end.

Definition deliverAll (host : Host) (l : list Notification) (m : Monitor)
    : Monitor :=
  foldl (fun m n => deliver host n m) m l.


(** What the status bar shows for the current fields. *)
Definition barReflectsFields (m : Monitor) : Prop :=
  visible (statusBarItem m) = negb (isConnected m) || (0 <? queueSize m) /\
  (visible (statusBarItem m) = true ->
   statusBarItem m = statusBarItem (updateStatusBar m)).

End TelemetryStatusMonitor.

Module TSM := TelemetryStatusMonitor.

(** The arguments of the queue-size callback, oldest first. *)
Definition sizeCallbacks (l : list Notification) : list (nat * bool) :=
  omap (fun n => match n with
                 | ConnectionStatusChanged _ => None
                 | QueueSizeChanged size above => Some (size, above)
                 end) l.

(** Calls on the queue of every kind but [clear], from the empty store. *)
Definition mixedCalls : list QueueCall :=
  [CallEnqueue (sampleEvent "test-0") None;
   CallEnqueue (sampleEvent "test-1") None;
   CallUpdateEventAfterRetry "1700000000000-r0" false
     (Some "Network error"%string);
   CallGetEventsForRetry;
   CallEnqueue (sampleEvent "test-2") None;
   CallGetQueueSize;
   CallUpdateEventAfterRetry "1700000000003-r1" true None;
   CallPruneFailedEvents;
   CallGetQueueMetadata;
   CallGetAllEvents].

(** Calls that retry and prune, none of them [enqueue]. *)
Definition retryCalls : list QueueCall :=
  [CallUpdateEventAfterRetry "1700000000006-r2" false None;
   CallGetEventsForRetry;
   CallUpdateEventAfterRetry "1700000000003-r1" true None;
   CallPruneFailedEvents].

(** A clock that advances by one second per reading. *)
Definition slowHost : Host :=
  {| clock := fun n => 1700000000000 + 1000 * Z.of_nat n;
     random36 := fun n => "r" +:+ pretty n;
     transport := fun _ _ => Normal tt |}.

(** Three events enqueued under the slow clock; the first then fails once
    and the second twice. *)
Definition backoffCalls : list QueueCall :=
  [CallEnqueue (sampleEvent "test-0") None;
   CallEnqueue (sampleEvent "test-1") None;
   CallEnqueue (sampleEvent "test-2") None;
   CallUpdateEventAfterRetry "1700000000000-r0" false
     (Some "Network error"%string);
   CallUpdateEventAfterRetry "1700000003000-r1" false
     (Some "Network error"%string);
   CallUpdateEventAfterRetry "1700000003000-r1" false
     (Some "timeout"%string)].

Definition backedOff : Sys :=
  run (queueCalls slowHost smallQueueConfig backoffCalls) initialSys.

(** What [String] throws on a value it cannot convert, such as
    [Object.create(null)]. *)
Definition conversionError : Thrown :=
  ErrorObject "Cannot convert object to primitive value".

(** A transport whose first call resolves, whose second call rejects with
    a value that [String] cannot convert and whose later calls reject with
    an [Error]. *)
Definition garbledHost : Host :=
  {| clock := fun n => 1700000000000 + Z.of_nat n;
     random36 := fun n => "r" +:+ pretty n;
     transport := fun n _ =>
       match n with
       | 0%nat => Normal tt
       | 1%nat => Throw (Unprintable conversionError)
       | _ => Throw (ErrorObject "Network error")
       end |}.

(** A transport that always rejects with a value that [String] cannot
    convert. *)
Definition opaqueHost : Host :=
  {| clock := fun n => 1700000000000 + Z.of_nat n;
     random36 := fun n => "r" +:+ pretty n;
     transport := fun _ _ => Throw (Unprintable conversionError) |}.

(** * Properties of the queue *)

Ltac run_async :=
  unfold run, result, bind, ret, read, write; cbn.

Lemma queue_key_distinct : QUEUE_KEY <> QUEUE_METADATA_KEY.
Proof. discriminate. Qed.

Section StoreFacts.

Variable host : Host.

Lemma queueOf_globalState s1 s2 :
  globalState s1 = globalState s2 -> queueOf s1 = queueOf s2.
Proof. unfold queueOf, getQueue, globalState_get. run_async. by intros ->. Qed.

Lemma getQueue_run s : run getQueue s = s.
Proof. reflexivity. Qed.

Lemma queueOf_save queue s :
  queueOf (run (saveQueue queue ;;; updateMetadata host queue) s) = queue.
Proof.
  unfold queueOf, getQueue, saveQueue, updateMetadata, globalState_get,
    globalState_update, Date_now.
  run_async.
  rewrite lookup_insert_ne by (symmetry; apply queue_key_distinct).
  by rewrite lookup_insert_eq.
Qed.

Lemma updateCalls_save queue s :
  updateCalls (run (saveQueue queue ;;; updateMetadata host queue) s) =
  updateCalls s ++
    [(QUEUE_KEY, Some (VQueue queue));
     (QUEUE_METADATA_KEY,
      Some (VMetadata {| recordedSize := length queue;
                         lastUpdated := clock host (dateNowCalls s) |}))].
Proof.
  unfold saveQueue, updateMetadata, globalState_update, Date_now.
  run_async. by rewrite <- app_assoc.
Qed.

End StoreFacts.

Section EnqueueFacts.

Variable host : Host.
Variable config : TelemetryQueueConfig.

Lemma enqueue_queueOf ev err s :
  queueOf (run (enqueue host config ev err) s) =
  (if maxQueueSize config <=? Z.of_nat (length (queueOf s))
   then drop 1 (queueOf s) else queueOf s) ++ [queuedEventOf host ev err s].
Proof.
  unfold enqueue, run. unfold bind at 1.
  change (getQueue s) with (queueOf s, s). cbn [fst snd].
  destruct (maxQueueSize config <=? Z.of_nat (length (queueOf s)));
    unfold generateId, Math_random_suffix, Date_now; unfold bind at 1 2 3 4;
    cbn [fst snd ret]; apply (queueOf_save host).
Qed.

Lemma enqueue_length ev err s :
  1 <= maxQueueSize config ->
  Z.of_nat (length (queueOf s)) <= maxQueueSize config ->
  Z.of_nat (length (queueOf (run (enqueue host config ev err) s))) <=
    maxQueueSize config.
Proof.
  intros Hpos Hlen. rewrite enqueue_queueOf.
  destruct (Z.leb_spec (maxQueueSize config) (Z.of_nat (length (queueOf s))));
    rewrite length_app; [rewrite length_drop|]; simpl; lia.
Qed.

Lemma created_length calls : forall s,
  length (created host config calls s) = length calls.
Proof.
  induction calls as [|[ev err] rest IH]; intros s; simpl; [done|].
  by rewrite IH.
Qed.

Lemma created_payload calls : forall s,
  payload <$> created host config calls s = calls.
Proof.
  induction calls as [|[ev err] rest IH]; intros s; simpl; [done|].
  by rewrite IH.
Qed.

(** The invariant of a run of enqueues from any queue within capacity:
    the queue is the tail of "old queue, then everything created". *)
Lemma enqueueAll_window calls : forall s,
  1 <= maxQueueSize config ->
  Z.of_nat (length (queueOf s)) <= maxQueueSize config ->
  let s' := run (enqueueAll host config calls) s in
  Z.of_nat (length (queueOf s')) <= maxQueueSize config /\
  queueOf s' =
    drop (length (queueOf s) + length calls - Z.to_nat (maxQueueSize config))
         (queueOf s ++ created host config calls s).
Proof.
  induction calls as [|[ev err] rest IH]; intros s Hpos Hlen; simpl.
  - split; [done|].
    replace (_ - _)%nat with 0%nat by lia. by rewrite app_nil_r.
  - change (run (enqueue host config ev err ;;; enqueueAll host config rest) s)
      with (run (enqueueAll host config rest)
                (run (enqueue host config ev err) s)).
    pose proof (enqueue_length ev err s Hpos Hlen) as Hlen1.
    destruct (IH _ Hpos Hlen1) as [Hb Hq]. split; [done|].
    rewrite Hq. clear Hq IH Hb.
    revert Hlen1. rewrite enqueue_queueOf.
    set (new := queuedEventOf host ev err s).
    set (tl := created host config rest _).
    pose proof (created_length rest (run (enqueue host config ev err) s)) as Htl.
    fold tl in Htl. clearbody tl new.
    destruct (Z.leb_spec (maxQueueSize config) (Z.of_nat (length (queueOf s))))
      as [Hfull|Hroom]; intros Hlen1.
    + destruct (queueOf s) as [|old q] eqn:Hq; [simpl in *; lia|].
      simpl in Hlen, Hfull. simpl drop at 2. rewrite drop_0.
      rewrite !length_app, <- app_assoc. simpl length.
      replace (length q + 1 + length rest - Z.to_nat (maxQueueSize config))%nat
        with (length rest) by lia.
      replace (S (length q) + S (length rest) - Z.to_nat (maxQueueSize config))%nat
        with (S (length rest)) by lia.
      done.
    + rewrite length_app, <- app_assoc. simpl.
      f_equal. lia.
Qed.

End EnqueueFacts.

Section ListFacts.

Context {A : Type}.

Lemma filter_length_eq (P : A -> Prop) `{forall x, Decision (P x)} (l : list A) :
  length (filter P l) = length l -> filter P l = l.
Proof.
  induction l as [|x l IH]; [done|].
  rewrite filter_cons. case_decide; simpl; intros Hlen.
  - f_equal. apply IH. lia.
  - pose proof (length_filter P l). lia.
Qed.

Lemma filter_length_complement (P : A -> Prop) `{forall x, Decision (P x)}
    (l : list A) :
  (length (filter P l) + length (filter (fun x => ~ P x) l) = length l)%nat.
Proof.
  rewrite <- length_app. by rewrite filter_app_complement.
Qed.

Lemma filter_all_iff (P : A -> Prop) `{forall x, Decision (P x)} (l : list A) :
  filter P l = l <-> Forall P l.
Proof.
  split.
  - intros Heq. apply Forall_forall. intros x Hx.
    rewrite <- Heq in Hx. by apply list_elem_of_filter in Hx as [? _].
  - induction 1 as [|x l Hx _ IH]; [done|].
    by rewrite filter_cons_True, IH.
Qed.

Lemma findIndex_Some (P : A -> Prop) `{forall x, Decision (P x)}
    (l : list A) (k : nat) :
  findIndex P l = Some k <->
  exists x, l !! k = Some x /\ P x /\
            forall j y, l !! j = Some y -> (j < k)%nat -> ~ P y.
Proof.
  unfold findIndex. split.
  - intros Hfind. apply fmap_Some in Hfind as [[k' x] [Hfind ->]].
    apply list_find_Some in Hfind. by exists x.
  - intros [x Hx]. apply fmap_Some. exists (k, x). split; [|done].
    by apply list_find_Some.
Qed.

Lemma findIndex_None (P : A -> Prop) `{forall x, Decision (P x)} (l : list A) :
  findIndex P l = None <-> Forall (fun x => ~ P x) l.
Proof.
  unfold findIndex. rewrite fmap_None. apply list_find_None.
Qed.

Lemma NoDup_delete_notin (l : list A) (k : nat) (x : A) :
  NoDup l -> l !! k = Some x -> x ∉ delete k l.
Proof.
  intros Hnd Hk. rewrite delete_take_drop.
  rewrite <- (take_drop_middle l k x Hk) in Hnd.
  apply NoDup_app in Hnd as (_ & Hleft & Hright).
  apply NoDup_cons in Hright as [Hright _].
  intros Hin. apply elem_of_app in Hin as [Hin|Hin]; [|done].
  apply (Hleft x Hin). by left.
Qed.

End ListFacts.

Section UpdateFacts.

Variable host : Host.

Lemma findIndex_id_NoDup (q : list QueuedTelemetryEvent) k item :
  NoDup (id <$> q) -> q !! k = Some item ->
  findIndex (fun x => id x = id item) q = Some k.
Proof.
  intros Hnd Hk. apply findIndex_Some. exists item. split; [done|].
  split; [done|]. intros j y Hj Hlt Heq.
  assert (j = k); [|lia].
  apply (NoDup_lookup (id <$> q) j k (id item)); [done| |].
  - by rewrite list_lookup_fmap, Hj, <- Heq.
  - by rewrite list_lookup_fmap, Hk.
Qed.

Lemma findIndex_id_absent (q : list QueuedTelemetryEvent) i :
  i ∉ (id <$> q) -> findIndex (fun x => id x = i) q = None.
Proof.
  intros Hnot. apply findIndex_None, Forall_forall. intros x Hx Heq.
  apply Hnot. rewrite <- Heq. by apply list_elem_of_fmap_2.
Qed.

Lemma updateEventAfterRetry_absent i ok err s :
  findIndex (fun x => id x = i) (queueOf s) = None ->
  run (updateEventAfterRetry host i ok err) s = s.
Proof.
  intros Hnone. unfold updateEventAfterRetry, run. unfold bind at 1.
  change (getQueue s) with (queueOf s, s). cbn [fst snd].
  by rewrite Hnone.
Qed.

Lemma updateEventAfterRetry_success_at i err s k :
  findIndex (fun x => id x = i) (queueOf s) = Some k ->
  run (updateEventAfterRetry host i true err) s =
  run (saveQueue (delete k (queueOf s)) ;;;
       updateMetadata host (delete k (queueOf s))) s.
Proof.
  intros Hk. unfold updateEventAfterRetry, run. unfold bind at 1.
  change (getQueue s) with (queueOf s, s). cbn [fst snd].
  by rewrite Hk.
Qed.

Lemma updateEventAfterRetry_failure_at i err s k :
  findIndex (fun x => id x = i) (queueOf s) = Some k ->
  queueOf (run (updateEventAfterRetry host i false err) s) =
  alter (markFailed (clock host (dateNowCalls s)) err) k (queueOf s).
Proof.
  intros Hk. unfold updateEventAfterRetry, run. unfold bind at 1.
  change (getQueue s) with (queueOf s, s). cbn [fst snd].
  rewrite Hk. unfold bind at 1. unfold Date_now at 1. unfold bind at 1.
  cbn [fst snd ret].
  apply (queueOf_save host).
Qed.

End UpdateFacts.

Section QueueClaims.

Variable host : Host.
Variable config : TelemetryQueueConfig.

(** C1 (amended: for a capacity of at least 1).  Starting from an empty
    queue, after any sequence of [enqueue] calls the queue is never longer
    than [maxQueueSize]: it holds [min (number of calls) maxQueueSize]
    events, namely the most recently created ones in creation order, each
    carrying the payload and error it was enqueued with.  A single
    [enqueue] on a full queue drops exactly the event at index 0 and
    appends the new one. *)
Theorem enqueue_keeps_most_recent
    (calls : list (TelemetryEvent * option string)) (s0 : Sys) :
  1 <= maxQueueSize config ->
  queueOf s0 = [] ->
  let s := run (enqueueAll host config calls) s0 in
  let capacity := Z.to_nat (maxQueueSize config) in
  Z.of_nat (length (queueOf s)) <= maxQueueSize config /\
  length (queueOf s) = Nat.min (length calls) capacity /\
  queueOf s = drop (length calls - capacity) (created host config calls s0) /\
  payload <$> queueOf s = drop (length calls - capacity) calls /\
  (forall s1 ev err,
     queueOf (run (enqueue host config ev err) s1) =
     (if maxQueueSize config <=? Z.of_nat (length (queueOf s1))
      then drop 1 (queueOf s1) else queueOf s1)
     ++ [queuedEventOf host ev err s1]).
Proof.
  intros Hpos Hempty s capacity.
  destruct (enqueueAll_window host config calls s0 Hpos) as [Hbound Hq].
  { rewrite Hempty. simpl. lia. }
  fold s in Hbound, Hq. rewrite Hempty in Hq. simpl in Hq.
  fold capacity in Hq.
  split; [done|]. split.
  { rewrite Hq, length_drop, created_length. lia. }
  split; [done|]. split.
  { rewrite Hq, fmap_drop. by rewrite created_payload. }
  intros s1 ev err. apply enqueue_queueOf.
Qed.

Lemma pruneFailedEvents_eq (s : Sys) :
  pruneFailedEvents host config s =
  let q := queueOf s in
  let pruned :=
    filter (fun item => Z.of_nat (retryCount item) < maxRetries config) q in
  ((length q - length pruned)%nat,
   if (length pruned =? length q)%nat then s
   else run (saveQueue pruned ;;; updateMetadata host pruned) s).
Proof.
  unfold pruneFailedEvents, run. unfold bind at 1.
  change (getQueue s) with (queueOf s, s). cbv zeta. cbn [fst snd].
  unfold bind at 1.
  by destruct (length _ =? length _)%nat.
Qed.

(** C3.  [pruneFailedEvents] keeps exactly the events with
    [retryCount < maxRetries], in their stored order, and returns the number
    of events with [retryCount >= maxRetries]; when that number is 0 the
    whole state, the store included, is left as it was, and otherwise the
    pruned queue and its size record are written to the store. *)
Theorem pruneFailedEvents_exact (s : Sys) :
  let q := queueOf s in
  let s' := run (pruneFailedEvents host config) s in
  let removed := result (pruneFailedEvents host config) s in
  queueOf s' =
    filter (fun item => Z.of_nat (retryCount item) < maxRetries config) q /\
  queueOf s' `sublist_of` q /\
  removed =
    length (filter (fun item => maxRetries config <= Z.of_nat (retryCount item)) q) /\
  (removed = 0%nat <->
   Forall (fun item => Z.of_nat (retryCount item) < maxRetries config) q) /\
  (removed = 0%nat -> s' = s) /\
  (removed <> 0%nat ->
   updateCalls s' = updateCalls s ++
     [(QUEUE_KEY, Some (VQueue (queueOf s')));
      (QUEUE_METADATA_KEY,
       Some (VMetadata {| recordedSize := length (queueOf s');
                          lastUpdated := clock host (dateNowCalls s) |}))]).
Proof.
  intros q s' removed.
  set (keep := fun item : QueuedTelemetryEvent =>
                 Z.of_nat (retryCount item) < maxRetries config).
  assert (Hremoved : removed = (length q - length (filter keep q))%nat).
  { unfold removed, result. by rewrite pruneFailedEvents_eq. }
  assert (Hcases :
    (length (filter keep q) = length q /\ s' = s) \/
    (length (filter keep q) <> length q /\
     s' = run (saveQueue (filter keep q) ;;;
               updateMetadata host (filter keep q)) s)).
  { unfold s', run. rewrite pruneFailedEvents_eq. cbv zeta. cbn [snd].
    fold q keep.
    destruct (Nat.eqb_spec (length (filter keep q)) (length q)) as [He|Hne];
      [left|right]; (split; [done|]); reflexivity. }
  pose proof (length_filter keep q) as Hle.
  pose proof (filter_length_complement keep q) as Hsum.
  assert (Hcompl :
    filter (fun item => maxRetries config <= Z.of_nat (retryCount item)) q =
    filter (fun item => ~ keep item) q).
  { apply list_filter_iff. intros item. unfold keep. lia. }
  assert (Hq' : queueOf s' = filter keep q).
  { destruct Hcases as [[Hlen ->]|[_ ->]].
    - symmetry. by apply filter_length_eq.
    - apply (queueOf_save host). }
  split; [done|]. split; [rewrite Hq'; apply sublist_filter|].
  split; [rewrite Hcompl; lia|]. split.
  { rewrite <- (filter_all_iff keep q).
    split.
    - intros H0. apply filter_length_eq. lia.
    - intros Heq. rewrite Hremoved, Heq. lia. }
  split.
  - intros H0. destruct Hcases as [[_ ->]|[Hne _]]; [done|lia].
  - intros Hn. destruct Hcases as [[Heq _]|[_ Hs']]; [lia|].
    rewrite Hq'. rewrite Hs'. apply (updateCalls_save host).
Qed.

(** C4.  With the identifiers of the queued events pairwise distinct,
    [updateEventAfterRetry(id, true)] deletes the event carrying [id] and
    nothing else; afterwards no event carries [id], so a second call changes
    nothing; and a call with an identifier that is not in the queue, with
    either outcome flag, returns the state it was given. *)
Theorem updateEventAfterRetry_success_once
    (i : string) (err err' : option string) (s : Sys) :
  NoDup (id <$> queueOf s) ->
  let s1 := run (updateEventAfterRetry host i true err) s in
  (forall k item, queueOf s !! k = Some item -> id item = i ->
     queueOf s1 = delete k (queueOf s)) /\
  (i ∉ (id <$> queueOf s1)) /\
  run (updateEventAfterRetry host i true err') s1 = s1 /\
  (forall j ok e, j ∉ (id <$> queueOf s) ->
     run (updateEventAfterRetry host j ok e) s = s).
Proof.
  intros Hnd s1.
  assert (Hdel : forall k item, queueOf s !! k = Some item -> id item = i ->
            queueOf s1 = delete k (queueOf s)).
  { intros k item Hk <-. unfold s1.
    rewrite (updateEventAfterRetry_success_at host _ err s k)
      by by apply findIndex_id_NoDup.
    apply (queueOf_save host). }
  assert (Habsent : forall j ok e st, j ∉ (id <$> queueOf st) ->
            run (updateEventAfterRetry host j ok e) st = st).
  { intros j ok e st Hj.
    by apply updateEventAfterRetry_absent, findIndex_id_absent. }
  assert (Hgone : i ∉ (id <$> queueOf s1)).
  { destruct (decide (i ∈ (id <$> queueOf s))) as [Hin|Hout].
    - apply list_elem_of_fmap in Hin as (item & Hid & Hitem).
      apply list_elem_of_lookup in Hitem as [k Hk].
      rewrite (Hdel k item Hk (eq_sym Hid)), list_fmap_delete.
      apply NoDup_delete_notin; [done|].
      by rewrite list_lookup_fmap, Hk, Hid.
    - unfold s1. by rewrite Habsent. }
  split; [done|]. split; [done|]. split; [by apply Habsent|].
  intros j ok e. apply Habsent.
Qed.

(** C5.  With distinct identifiers, a failed retry of the event at
    position [k] replaces it by the same event with [retryCount] one
    higher, [lastRetryTimestamp] set to the clock value read by the call and
    [error] set to the argument ([None] clears it); [id], [event] and
    [timestamp] are kept, and every other position of the queue is as
    before. *)
Theorem updateEventAfterRetry_failure_frame
    (i : string) (err : option string) (s : Sys)
    (k : nat) (item : QueuedTelemetryEvent) :
  NoDup (id <$> queueOf s) ->
  queueOf s !! k = Some item ->
  id item = i ->
  let q' := queueOf (run (updateEventAfterRetry host i false err) s) in
  q' = <[k := {| id := id item; event := event item;
                 timestamp := timestamp item;
                 retryCount := S (retryCount item);
                 lastRetryTimestamp := Some (clock host (dateNowCalls s));
                 error := err |}]> (queueOf s) /\
  length q' = length (queueOf s) /\
  (forall j, j <> k -> q' !! j = queueOf s !! j).
Proof.
  intros Hnd Hk <- q'.
  assert (Hq' : q' = <[k := markFailed (clock host (dateNowCalls s)) err item]>
                      (queueOf s)).
  { unfold q'.
    rewrite (updateEventAfterRetry_failure_at host _ err s k)
      by by apply findIndex_id_NoDup.
    apply list_eq. intros j.
    destruct (decide (j = k)) as [->|Hne].
    - rewrite list_lookup_alter_eq, Hk, list_lookup_insert_eq; [done|].
      by eapply lookup_lt_Some.
    - by rewrite list_lookup_alter_ne, list_lookup_insert_ne. }
  split; [done|]. rewrite Hq'. split; [apply length_insert|].
  intros j Hne. by apply list_lookup_insert_ne.
Qed.

End QueueClaims.

Section RetryEligibility.

Variable host : Host.
Variable config : TelemetryQueueConfig.

Lemma getEventsForRetry_eq (s : Sys) :
  getEventsForRetry host config s =
  (filter (fun item => readyForRetry config (clock host (dateNowCalls s)) item)
          (queueOf s),
   set_dateNowCalls (S (dateNowCalls s)) s).
Proof. reflexivity. Qed.

(** X1.  Whatever the timestamps are, [getEventsForRetry] returns no event
    with [retryCount >= maxRetries], returns the events in stored order, and
    leaves the store untouched. *)
Theorem getEventsForRetry_below_ceiling (s : Sys) :
  let events := result (getEventsForRetry host config) s in
  let s' := run (getEventsForRetry host config) s in
  Forall (fun item => Z.of_nat (retryCount item) < maxRetries config) events /\
  events `sublist_of` queueOf s /\
  globalState s' = globalState s /\
  updateCalls s' = updateCalls s.
Proof.
  unfold result, run. rewrite getEventsForRetry_eq. cbn [fst snd].
  split; [|split; [apply sublist_filter|done]].
  apply Forall_forall. intros item [Hready _]%list_elem_of_filter.
  unfold readyForRetry in Hready.
  destruct (Z.leb_spec (maxRetries config) (Z.of_nat (retryCount item)));
    [done|lia].
Qed.

(** On events whose last attempt is not stamped with the epoch value 0 the
    filter is the rule of the specification. *)
Lemma readyForRetry_eligibleBySpec (now : Z) (item : QueuedTelemetryEvent) :
  lastRetryTimestamp item <> Some 0 ->
  readyForRetry config now item = true <-> eligibleBySpec config now item.
Proof.
  intros Hepoch. unfold readyForRetry, eligibleBySpec, truthy_number.
  destruct (Z.leb_spec (maxRetries config) (Z.of_nat (retryCount item)))
    as [Hmax|Hmax].
  { split; [done|]. intros [? _]. lia. }
  destruct (lastRetryTimestamp item) as [t|] eqn:Ht; simpl.
  - destruct (Z.eqb_spec t 0) as [->|Hnz]; [done|]. simpl.
    rewrite Z.leb_le. split.
    + intros Hle. split; [done|]. right. by exists t.
    + intros [_ [Hnone|(t' & [= <-] & Hle)]]; [done|lia].
  - split; [|done]. intros _. split; [done|by left].
Qed.

(** X2.  On a queue in which no last attempt is stamped with the value 0,
    [getEventsForRetry] returns exactly the queued events that are eligible
    by the rule of the specification, evaluated at the clock value it
    reads. *)
Theorem getEventsForRetry_eligibleBySpec (s : Sys) (item : QueuedTelemetryEvent) :
  Forall (fun x => lastRetryTimestamp x <> Some 0) (queueOf s) ->
  item ∈ result (getEventsForRetry host config) s <->
  item ∈ queueOf s /\ eligibleBySpec config (clock host (dateNowCalls s)) item.
Proof.
  intros Hall. unfold result. rewrite getEventsForRetry_eq. cbn [fst].
  rewrite list_elem_of_filter. split.
  - intros [Hready Hin]. split; [done|].
    apply readyForRetry_eligibleBySpec; [|by apply Is_true_true].
    by eapply Forall_forall in Hall.
  - intros [Hin Hspec]. split; [|done].
    apply Is_true_true, readyForRetry_eligibleBySpec; [|done].
    by eapply Forall_forall in Hall.
Qed.

End RetryEligibility.

(** X4.  [clear] leaves an empty queue: [getQueueSize] and the size of
    [getQueueMetadata] are 0 and the auxiliary size record is gone. *)
Theorem clear_empties (config : TelemetryQueueConfig) (s : Sys) :
  let s' := run clear s in
  queueOf s' = [] /\
  result getQueueSize s' = 0%nat /\
  size (result (getQueueMetadata config) s') = 0%nat /\
  globalState s' !! QUEUE_METADATA_KEY = None.
Proof.
  assert (Hq : queueOf (run clear s) = []).
  { unfold queueOf, getQueue, clear, saveQueue, globalState_get,
      globalState_update.
    run_async.
    rewrite lookup_delete_ne by (symmetry; apply queue_key_distinct).
    by rewrite lookup_insert_eq. }
  cbv zeta. split; [done|].
  change (result getQueueSize (run clear s))
    with (length (queueOf (run clear s))).
  change (size (result (getQueueMetadata config) (run clear s)))
    with (length (queueOf (run clear s))).
  rewrite Hq. split; [done|]. split; [done|].
  unfold clear, saveQueue, globalState_update. run_async.
  apply lookup_delete_eq.
Qed.

(** * Properties of the retry manager *)

Lemma edges_app a l1 b l2 c :
  edges a l1 b -> edges b l2 c -> edges a (l1 ++ l2) c.
Proof.
  induction 1 as [|a l1 b _ IH]; intros H2; simpl; [done|].
  constructor. by apply IH.
Qed.

Lemma edges_single b : edges b [negb b] (negb b).
Proof. repeat constructor. Qed.

Lemma edgeTriggered_refl s : edgeTriggered s s.
Proof. exists []. split; [by rewrite app_nil_r|constructor]. Qed.

Lemma edgeTriggered_trans s1 s2 s3 :
  edgeTriggered s1 s2 -> edgeTriggered s2 s3 -> edgeTriggered s1 s3.
Proof.
  intros (l1 & H1 & E1) (l2 & H2 & E2). exists (l1 ++ l2).
  split; [by rewrite H2, H1, app_assoc|by eapply edges_app].
Qed.

Lemma edgeTriggered_view s s' :
  managerView s' = managerView s -> edgeTriggered s s'.
Proof.
  unfold managerView. intros [= _ Hn _ Hc _]. exists [].
  rewrite Hn, Hc, app_nil_r. split; [done|constructor].
Qed.

Section QueueFrame.

Variable host : Host.
Variable config : TelemetryQueueConfig.

(** The queue never touches the fields of the manager. *)
Lemma save_view queue s :
  managerView (run (saveQueue queue ;;; updateMetadata host queue) s) =
  managerView s.
Proof. reflexivity. Qed.

Lemma enqueue_view ev err s :
  managerView (run (enqueue host config ev err) s) = managerView s.
Proof.
  unfold enqueue, run. unfold bind at 1.
  by destruct (maxQueueSize config <=? _).
Qed.

Lemma updateEventAfterRetry_view i ok err s :
  managerView (run (updateEventAfterRetry host i ok err) s) = managerView s.
Proof.
  unfold updateEventAfterRetry, run. unfold bind at 1. cbn [fst snd].
  destruct (findIndex _ _); [|done]. by destruct ok.
Qed.

Lemma pruneFailedEvents_view s :
  managerView (run (pruneFailedEvents host config) s) = managerView s.
Proof.
  unfold run. rewrite pruneFailedEvents_eq. cbv zeta. cbn [snd].
  by destruct (_ =? _)%nat.
Qed.

Lemma getEventsForRetry_view s :
  managerView (run (getEventsForRetry host config) s) = managerView s.
Proof. reflexivity. Qed.

Lemma getEventsForRetry_queueOf s :
  queueOf (run (getEventsForRetry host config) s) = queueOf s.
Proof. reflexivity. Qed.

Lemma feedBack_cons o rest s :
  feedBack host (o :: rest) s =
  feedBack host rest
    (run (updateEventAfterRetry host (outcomeId o) (success o)
            (outcomeError o)) s).
Proof. reflexivity. Qed.

Lemma feedBack_view outcomes : forall s,
  managerView (feedBack host outcomes s) = managerView s.
Proof.
  induction outcomes as [|o rest IH]; intros s; [done|].
  by rewrite feedBack_cons, IH, updateEventAfterRetry_view.
Qed.

End QueueFrame.

Section ManagerFacts.

Variable host : Host.
Variable queueConfig : TelemetryQueueConfig.
Variable config : RetryManagerConfig.

Lemma updateConnectionStatus_eq connected s :
  run (updateConnectionStatus config connected) s =
  if Bool.eqb (isConnected s) connected then s
  else if onConnectionStatusChange config
       then set_notifications
              (notifications s ++ [ConnectionStatusChanged connected])
              (set_isConnected connected s)
       else set_isConnected connected s.
Proof.
  unfold updateConnectionStatus. run_async.
  destruct (Bool.eqb _ _); [done|].
  by destruct (onConnectionStatusChange config).
Qed.

Lemma updateConnectionStatus_isConnected connected s :
  isConnected (run (updateConnectionStatus config connected) s) = connected.
Proof.
  rewrite updateConnectionStatus_eq.
  destruct (Bool.eqb_spec (isConnected s) connected) as [->|]; [done|].
  by destruct (onConnectionStatusChange config).
Qed.

Lemma updateConnectionStatus_queueOf connected s :
  queueOf (run (updateConnectionStatus config connected) s) = queueOf s.
Proof.
  rewrite updateConnectionStatus_eq.
  destruct (Bool.eqb _ _); [done|].
  by destruct (onConnectionStatusChange config).
Qed.

Lemma updateConnectionStatus_edgeTriggered connected s :
  onConnectionStatusChange config = true ->
  edgeTriggered s (run (updateConnectionStatus config connected) s).
Proof.
  intros Hcb. rewrite updateConnectionStatus_eq, Hcb.
  destruct (Bool.eqb_spec (isConnected s) connected) as [Heq|Hne].
  - apply edgeTriggered_refl.
  - exists [connected]. cbn. split.
    + unfold statusCallbacks. by rewrite omap_app.
    + replace connected with (negb (isConnected s))
        by (by destruct (isConnected s), connected).
      apply edges_single.
Qed.

Lemma set_sent_same s : set_sent (sent s) s = s.
Proof. by destruct s. Qed.

Lemma bind_eq {A B} (m : Async A) (k : A -> Async B) s :
  bind m k s = k (m s).1 (m s).2.
Proof. reflexivity. Qed.

Lemma dispatchTask_eq queuedEvent s :
  dispatchTask host queuedEvent s =
  (match settledOf host (length (sent s)) queuedEvent with
   | fulfilled value => Normal value
   | rejected raised => Throw raised
   end,
   set_sent (sent s ++ [event queuedEvent]) s).
Proof.
  unfold dispatchTask, sendEvent, settledOf. rewrite bind_eq.
  cbn [fst snd ret].
  destruct (transport host (length (sent s)) (event queuedEvent)) as [|e];
    [done|].
  cbn [and_then try_catch]. by destruct (errorText e).
Qed.

Lemma allSettled_dispatch batch : forall s,
  allSettled (dispatchTask host) batch s =
  (batchResults host (length (sent s)) batch,
   set_sent (sent s ++ (event <$> batch)) s).
Proof.
  induction batch as [|queuedEvent rest IH]; intros s.
  - simpl. by rewrite app_nil_r, set_sent_same.
  - cbn [allSettled]. rewrite bind_eq, dispatchTask_eq. cbn [fst snd].
    rewrite bind_eq, IH. cbn [fst snd ret batchResults].
    f_equal.
    + cbn [sent set_sent]. rewrite length_app, Nat.add_1_r.
      by destruct (settledOf host (length (sent s)) queuedEvent).
    + unfold set_sent. cbn. by rewrite <- app_assoc.
Qed.

(** The result loop feeds back the fulfilled results and skips the
    rejected ones. *)
Lemma feedResults_eq results : forall a b s,
  feedResults host results a b s =
  ((a + length (filter (fun o => success o) (fulfilledValues results)),
    b + length (filter (fun o => ~ success o) (fulfilledValues results)))%nat,
   feedBack host (fulfilledValues results) s).
Proof.
  induction results as [|[o|raised] rest IH]; intros a b s.
  - simpl. by rewrite !Nat.add_0_r.
  - change (fulfilledValues (fulfilled o :: rest))
      with (o :: fulfilledValues rest).
    cbn [feedResults]. rewrite bind_eq.
    rewrite feedBack_cons, !filter_cons.
    change ((updateEventAfterRetry host (outcomeId o) (success o)
               (outcomeError o) s).2)
      with (run (updateEventAfterRetry host (outcomeId o) (success o)
                   (outcomeError o)) s).
    destruct (success o) eqn:Hok; rewrite IH; simpl;
      do 2 f_equal; lia.
  - change (fulfilledValues (rejected raised :: rest))
      with (fulfilledValues rest).
    cbn [feedResults]. apply IH.
Qed.

Lemma batchResults_length batch : forall n,
  length (batchResults host n batch) = length batch.
Proof. induction batch as [|x rest IH]; intros n; simpl; [done|by rewrite IH]. Qed.

Lemma batchResults_lookup batch : forall n j,
  batchResults host n batch !! j = settledOf host (n + j) <$> batch !! j.
Proof.
  induction batch as [|x rest IH]; intros n j; [done|].
  destruct j as [|j]; cbn [batchResults lookup list_lookup].
  - by rewrite Nat.add_0_r.
  - rewrite IH. by rewrite Nat.add_succ_r.
Qed.

Lemma batchResults_app b1 b2 : forall n,
  batchResults host n (b1 ++ b2) =
  batchResults host n b1 ++ batchResults host (n + length b1) b2.
Proof.
  induction b1 as [|x rest IH]; intros n.
  - simpl. by rewrite Nat.add_0_r.
  - simpl. rewrite IH. by rewrite Nat.add_succ_r.
Qed.

Lemma settledOf_id n queuedEvent value :
  settledOf host n queuedEvent = fulfilled value ->
  outcomeId value = id queuedEvent.
Proof.
  unfold settledOf. destruct (transport host n (event queuedEvent)) as [|e].
  - by intros [= <-].
  - destruct (errorText e); [by intros [= <-]|done].
Qed.

Lemma batchOutcomes_cons x rest n :
  batchOutcomes host n (x :: rest) =
  match settledOf host n x with
  | fulfilled value => [value]
  | rejected _ => []
  end ++ batchOutcomes host (S n) rest.
Proof.
  unfold batchOutcomes, fulfilledValues. cbn [batchResults omap list_omap].
  by destruct (settledOf host n x).
Qed.

Lemma batchOutcomes_length batch : forall n,
  (length (batchOutcomes host n batch) <= length batch)%nat.
Proof.
  induction batch as [|x rest IH]; intros n; [done|].
  rewrite batchOutcomes_cons, length_app. specialize (IH (S n)).
  destruct (settledOf host n x); simpl; lia.
Qed.

(** The ids of the outcome records are ids of the batch, in batch order. *)
Lemma batchOutcomes_ids batch : forall n,
  (outcomeId <$> batchOutcomes host n batch) `sublist_of` (id <$> batch).
Proof.
  induction batch as [|x rest IH]; intros n; [done|].
  rewrite batchOutcomes_cons, fmap_app. specialize (IH (S n)).
  destruct (settledOf host n x) as [value|] eqn:Hx; cbn.
  - rewrite (settledOf_id _ _ _ Hx). by apply sublist_skip.
  - by apply sublist_cons.
Qed.

Lemma processBatch_eq batch s :
  run (processBatch host config batch) s =
  let outcomes := batchOutcomes host (length (sent s)) batch in
  let s2 := feedBack host outcomes (set_sent (sent s ++ (event <$> batch)) s) in
  if (0 <? length (filter (fun o => success o) outcomes))%nat
     && negb (isConnected s)
  then run (updateConnectionStatus config true) s2
  else if (length (filter (fun o => ~ success o) outcomes) =? length batch)%nat
          && isConnected s
  then run (updateConnectionStatus config false) s2
  else s2.
Proof.
  unfold processBatch, run. rewrite bind_eq, allSettled_dispatch.
  cbn [fst snd]. rewrite bind_eq, feedResults_eq.
  fold (batchOutcomes host (length (sent s)) batch).
  cbn [fst snd]. rewrite bind_eq. unfold read at 1. cbn [fst snd].
  cbv zeta.
  set (s2 := feedBack _ _ _).
  assert (Hview : isConnected s2 = isConnected s).
  { pose proof (feedBack_view host
      (batchOutcomes host (length (sent s)) batch)
      (set_sent (sent s ++ (event <$> batch)) s)) as Hv.
    fold s2 in Hv. unfold managerView in Hv. by injection Hv. }
  unfold read. cbn [fst snd]. rewrite ?Hview, ?Nat.add_0_l.
  destruct (_ && negb _); [done|]. by destruct (_ && isConnected s).
Qed.

End ManagerFacts.

Section CycleFacts.

Variable host : Host.
Variable queueConfig : TelemetryQueueConfig.
Variable config : RetryManagerConfig.

Lemma edgeTriggered_same s s' :
  notifications s' = notifications s ->
  isConnected s' = isConnected s ->
  edgeTriggered s s'.
Proof.
  intros Hn Hc. exists []. rewrite Hn, Hc, app_nil_r.
  split; [done|constructor].
Qed.

Lemma notifyQueueSizeChange_eq s :
  run (notifyQueueSizeChange queueConfig config) s =
  if onQueueSizeChange config
  then set_notifications
         (notifications s ++
          [QueueSizeChanged (length (queueOf s))
             (queueSizeWarningThreshold queueConfig <=?
              Z.of_nat (length (queueOf s)))]) s
  else s.
Proof.
  unfold notifyQueueSizeChange, run. rewrite bind_eq.
  by destruct (onQueueSizeChange config).
Qed.

Lemma notifyQueueSizeChange_edgeTriggered s :
  edgeTriggered s (run (notifyQueueSizeChange queueConfig config) s).
Proof.
  rewrite notifyQueueSizeChange_eq.
  destruct (onQueueSizeChange config); [|apply edgeTriggered_refl].
  exists []. cbn. unfold statusCallbacks. rewrite omap_app. cbn.
  split; [done|constructor].
Qed.

Lemma checkConnectionStatus_eq s :
  run (checkConnectionStatus host config) s =
  let now := clock host (dateNowCalls s) in
  let s1 := set_dateNowCalls (S (dateNowCalls s)) s in
  if now - lastConnectionCheck s <? connectionCheckInterval then s1
  else
    let s2 := set_sent (sent s ++ [connectionCheckEvent now])
                (set_lastConnectionCheck now s1) in
    match transport host (length (sent s)) (connectionCheckEvent now) with
    | Normal _ =>
        if negb (isConnected s)
        then run (updateConnectionStatus config true) s2 else s2
    | Throw _ =>
        if isConnected s
        then run (updateConnectionStatus config false) s2 else s2
    end.
Proof.
  unfold checkConnectionStatus, run, Date_now, sendEvent, read, write.
  rewrite !bind_eq. cbn [fst snd]. cbv zeta.
  destruct (_ <? _); [done|].
  rewrite !bind_eq. cbn [fst snd sent set_lastConnectionCheck set_dateNowCalls
                          isConnected set_sent].
  destruct (transport host _ _); by destruct (isConnected s).
Qed.

(** Each step of a cycle leaves the re-entrancy guard alone. *)
Lemma updateConnectionStatus_guard connected s :
  isProcessing (run (updateConnectionStatus config connected) s) =
  isProcessing s.
Proof.
  rewrite updateConnectionStatus_eq. destruct (Bool.eqb _ _); [done|].
  by destruct (onConnectionStatusChange config).
Qed.

Lemma processBatch_guard batch s :
  isProcessing (run (processBatch host config batch) s) = isProcessing s.
Proof.
  rewrite processBatch_eq. cbv zeta.
  set (s2 := feedBack _ _ _).
  assert (Hs2 : isProcessing s2 = isProcessing s).
  { pose proof (feedBack_view host
      (batchOutcomes host (length (sent s)) batch)
      (set_sent (sent s ++ (event <$> batch)) s)) as Hv.
    fold s2 in Hv. unfold managerView in Hv. by injection Hv. }
  destruct (_ && negb _); [by rewrite updateConnectionStatus_guard|].
  destruct (_ && isConnected s); [by rewrite updateConnectionStatus_guard|done].
Qed.

Lemma processBatches_run batch rest s :
  run (processBatches host config (batch :: rest)) s =
  run (processBatches host config rest)
      (run (processBatch host config batch) s).
Proof. reflexivity. Qed.

Lemma processBatches_guard batches : forall s,
  isProcessing (run (processBatches host config batches) s) = isProcessing s.
Proof.
  induction batches as [|batch rest IH]; intros s; [done|].
  by rewrite processBatches_run, IH, processBatch_guard.
Qed.

Lemma checkConnectionStatus_guard s :
  isProcessing (run (checkConnectionStatus host config) s) = isProcessing s.
Proof.
  rewrite checkConnectionStatus_eq. cbv zeta.
  destruct (_ <? _); [done|].
  destruct (transport host _ _); destruct (isConnected s); cbn [negb];
    by rewrite ?updateConnectionStatus_guard.
Qed.

(** Each step of a cycle reports the connection status on its edges. *)
Lemma processBatch_edgeTriggered batch s :
  onConnectionStatusChange config = true ->
  edgeTriggered s (run (processBatch host config batch) s).
Proof.
  intros Hcb. rewrite processBatch_eq. cbv zeta.
  set (s2 := feedBack _ _ _).
  assert (Hs2 : edgeTriggered s s2).
  { pose proof (feedBack_view host
      (batchOutcomes host (length (sent s)) batch)
      (set_sent (sent s ++ (event <$> batch)) s)) as Hv.
    fold s2 in Hv. unfold managerView in Hv.
    injection Hv as _ Hn _ Hc _. by apply edgeTriggered_same. }
  destruct (_ && negb _);
    [eapply edgeTriggered_trans;
       [done|by apply updateConnectionStatus_edgeTriggered]|].
  destruct (_ && isConnected s); [|done].
  eapply edgeTriggered_trans;
    [done|by apply updateConnectionStatus_edgeTriggered].
Qed.

Lemma processBatches_edgeTriggered batches : forall s,
  onConnectionStatusChange config = true ->
  edgeTriggered s (run (processBatches host config batches) s).
Proof.
  induction batches as [|batch rest IH]; intros s Hcb.
  - apply edgeTriggered_refl.
  - rewrite processBatches_run. eapply edgeTriggered_trans.
    + by apply processBatch_edgeTriggered.
    + by apply IH.
Qed.

Lemma checkConnectionStatus_edgeTriggered s :
  onConnectionStatusChange config = true ->
  edgeTriggered s (run (checkConnectionStatus host config) s).
Proof.
  intros Hcb. rewrite checkConnectionStatus_eq. cbv zeta.
  destruct (_ <? _); [by apply edgeTriggered_same|].
  set (s2 := set_sent _ _).
  assert (Hs2 : edgeTriggered s s2) by by apply edgeTriggered_same.
  destruct (transport host _ _); destruct (isConnected s); cbn [negb];
    try done;
    (eapply edgeTriggered_trans;
       [done|by apply updateConnectionStatus_edgeTriggered]).
Qed.

Lemma queueFailedEvent_eq ev err s :
  run (queueFailedEvent host queueConfig config ev err) s =
  let s1 := run (enqueue host queueConfig ev err) s in
  let s2 := if truthy_string err && isConnected s
            then run (updateConnectionStatus config false) s1 else s1 in
  run (notifyQueueSizeChange queueConfig config) s2.
Proof.
  unfold queueFailedEvent, run. rewrite !bind_eq. unfold read.
  cbn [fst snd]. cbv zeta.
  change (isConnected (enqueue host queueConfig ev err s).2)
    with (isConnected s).
  by destruct (truthy_string err && isConnected s).
Qed.

(** [createBatches] returns for every batch size of at least 1, and loops
    for ever on a non-empty array otherwise. *)
Lemma createBatches_loop_total {T} (items : list T) (size : Z) :
  1 <= size ->
  forall fuel i batches,
    0 <= i -> Z.of_nat (length items) - i <= Z.of_nat fuel ->
    is_Some (createBatches_loop fuel i items size batches).
Proof.
  intros Hsize. induction fuel as [|fuel IH]; intros i batches Hi Hfuel;
    cbn [createBatches_loop];
    destruct (Z.ltb_spec i (Z.of_nat (length items))); try done; try lia.
  apply IH; lia.
Qed.

Lemma createBatches_total {T} (items : list T) (size : Z) :
  1 <= size -> is_Some (createBatches items size).
Proof.
  intros Hsize. apply createBatches_loop_total; [done|lia|lia].
Qed.

Lemma createBatches_loop_diverges {T} (items : list T) (size : Z) :
  size <= 0 -> items <> [] ->
  forall fuel i batches,
    i <= 0 -> createBatches_loop fuel i items size batches = None.
Proof.
  intros Hsize Hne. induction fuel as [|fuel IH]; intros i batches Hi;
    cbn [createBatches_loop];
    (destruct (Z.ltb_spec i (Z.of_nat (length items))) as [_|Hge];
     [|destruct items; [done|simpl in Hge; lia]]); [done|].
  apply IH. lia.
Qed.

Lemma createBatches_diverges {T} (items : list T) (size : Z) :
  size <= 0 -> items <> [] -> createBatches items size = None.
Proof. intros. by apply createBatches_loop_diverges. Qed.

End CycleFacts.

Section Batches.

Context {T : Type}.

Lemma slice_window (items : list T) (i size : Z) :
  0 <= i -> 1 <= size -> i < Z.of_nat (length items) ->
  slice i (i + size) items =
  take (Z.to_nat size) (drop (Z.to_nat i) items).
Proof.
  intros Hi Hsize Hlt. unfold slice.
  destruct (Z.ltb_spec (i + size) 0); [lia|].
  destruct (Z.ltb_spec i 0); [lia|].
  rewrite (Z.min_l i) by lia.
  destruct (Z.le_ge_cases (i + size) (Z.of_nat (length items))) as [Hin|Hout].
  - rewrite Z.min_l by lia. f_equal. lia.
  - rewrite Z.min_r by lia.
    rewrite !take_ge; [done| |]; rewrite length_drop; lia.
Qed.

Lemma createBatches_loop_partition (items : list T) (size : Z) :
  1 <= size ->
  forall fuel i batches,
    0 <= i -> Z.of_nat (length items) - i <= Z.of_nat fuel ->
    Forall (fun batch => batch <> [] /\ Z.of_nat (length batch) <= size)
           batches ->
    exists all,
      createBatches_loop fuel i items size batches = Some all /\
      concat all = concat batches ++ drop (Z.to_nat i) items /\
      Forall (fun batch => batch <> [] /\ Z.of_nat (length batch) <= size) all.
Proof.
  intros Hsize. induction fuel as [|fuel IH]; intros i batches Hi Hfuel Hacc;
    cbn [createBatches_loop];
    destruct (Z.ltb_spec i (Z.of_nat (length items))) as [Hlt|Hge]; try lia.
  - exists batches. split; [done|]. split; [|done].
    rewrite drop_ge by lia. by rewrite app_nil_r.
  - destruct (IH (i + size) (batches ++ [slice i (i + size) items]))
      as (all & Hrun & Hconcat & Hall); [lia|lia| |].
    { apply Forall_app. split; [done|]. apply Forall_singleton.
      rewrite slice_window by done. split.
      - intros Hnil. apply (f_equal length) in Hnil.
        rewrite length_take, length_drop in Hnil. simpl in Hnil. lia.
      - rewrite length_take. lia. }
    exists all. split; [done|]. split; [|done].
    rewrite Hconcat, concat_app, <- app_assoc. f_equal. simpl.
    rewrite app_nil_r, slice_window by done.
    replace (Z.to_nat (i + size)) with (Z.to_nat i + Z.to_nat size)%nat by lia.
    by rewrite <- drop_drop, take_drop.
  - exists batches. split; [done|]. split; [|done].
    rewrite drop_ge by lia. by rewrite app_nil_r.
Qed.

(** X3.  For a batch size of at least 1 [createBatches] returns batches that
    are non-empty, hold at most [batchSize] items each and concatenate to
    the input, so order is kept and nothing is lost or repeated; for a batch
    size below 1 and a non-empty input its loop never ends. *)
Theorem createBatches_partition (items : list T) (size : Z) :
  (1 <= size ->
   exists batches,
     createBatches items size = Some batches /\
     concat batches = items /\
     Forall (fun batch => batch <> [] /\ Z.of_nat (length batch) <= size)
            batches) /\
  (size <= 0 -> items <> [] -> createBatches items size = None).
Proof.
  split.
  - intros Hsize.
    destruct (createBatches_loop_partition items size Hsize
                (length items) 0 []) as (all & Hrun & Hconcat & Hall);
      [lia|lia|done|].
    exists all. split; [done|]. split; [|done]. by rewrite Hconcat.
  - by apply createBatches_diverges.
Qed.

End Batches.

Section ManagerClaims.

Variable host : Host.
Variable queueConfig : TelemetryQueueConfig.
Variable config : RetryManagerConfig.

Lemma some_success_count (outcomes : list DispatchOutcome) :
  (0 <? length (filter (fun o => success o) outcomes))%nat = true <->
  exists o, o ∈ outcomes /\ success o = true.
Proof.
  rewrite Nat.ltb_lt. split.
  - intros Hpos.
    destruct (filter (fun o => success o) outcomes) as [|o rest] eqn:Hf;
      [simpl in Hpos; lia|].
    assert (Hin : o ∈ filter (fun o => success o) outcomes)
      by (rewrite Hf; left).
    apply list_elem_of_filter in Hin as [Hok Hin].
    exists o. split; [done|by apply Is_true_true].
  - intros (o & Hin & Hok).
    assert (Hf : o ∈ filter (fun o => success o) outcomes).
    { apply list_elem_of_filter. split; [by apply Is_true_true|done]. }
    destruct (filter _ outcomes); [by apply elem_of_nil in Hf|simpl; lia].
Qed.

Lemma all_failed_count (outcomes : list DispatchOutcome) (n : nat) :
  length outcomes = n ->
  (length (filter (fun o => ~ success o) outcomes) =? n)%nat = true <->
  forall o, o ∈ outcomes -> success o = false.
Proof.
  intros <-. rewrite Nat.eqb_eq. split.
  - intros Hlen o Hin. apply filter_length_eq in Hlen.
    rewrite <- Hlen in Hin. apply list_elem_of_filter in Hin as [Hno _].
    by destruct (success o); [destruct Hno|].
  - intros Hall. f_equal. apply filter_all_iff, Forall_forall.
    intros o Hin. rewrite (Hall o Hin). by intros [].
Qed.

Lemma settledOf_cases n queuedEvent :
  (sendSucceeds host n (event queuedEvent) = true /\
   conversionThrows host n (event queuedEvent) = false /\
   settledOf host n queuedEvent =
     fulfilled {| outcomeId := id queuedEvent; success := true;
                  outcomeError := None |}) \/
  (sendSucceeds host n (event queuedEvent) = false /\
   conversionThrows host n (event queuedEvent) = false /\
   exists text,
     settledOf host n queuedEvent =
       fulfilled {| outcomeId := id queuedEvent; success := false;
                    outcomeError := Some text |}) \/
  (sendSucceeds host n (event queuedEvent) = false /\
   conversionThrows host n (event queuedEvent) = true /\
   exists raised, settledOf host n queuedEvent = rejected raised).
Proof.
  unfold sendSucceeds, conversionThrows, settledOf.
  destruct (transport host n (event queuedEvent)) as [|e]; [by left|].
  destruct (errorText e) as [text|raised]; right; [left|right];
    (split; [done|]); (split; [done|]); by eexists.
Qed.

Lemma batchOutcomes_some_success batch : forall n,
  (exists o, o ∈ batchOutcomes host n batch /\ success o = true) <->
  exists j e, batch !! j = Some e /\
              sendSucceeds host (n + j) (event e) = true.
Proof.
  induction batch as [|x rest IH]; intros n.
  - split; [by intros (o & Hin & _); apply elem_of_nil in Hin
           |by intros (j & e & ? & _)].
  - rewrite batchOutcomes_cons. split.
    + intros (o & Hin & Hok). apply elem_of_app in Hin as [Hin|Hin].
      * exists 0%nat, x. split; [done|]. rewrite Nat.add_0_r.
        destruct (settledOf_cases n x)
          as [(? & _)|[(_ & _ & text & Hx)|(_ & _ & raised & Hx)]];
          [done| |]; rewrite Hx in Hin.
        -- apply list_elem_of_singleton in Hin as ->. done.
        -- by apply elem_of_nil in Hin.
      * destruct (proj1 (IH (S n))) as (j & e & Hj & Hsend);
          [by exists o|].
        exists (S j), e. split; [done|]. by rewrite Nat.add_succ_r.
    + intros ([|j] & e & Hj & Hsend).
      * injection Hj as ->. rewrite Nat.add_0_r in Hsend.
        destruct (settledOf_cases n e)
          as [(_ & _ & Hx)|[(Hno & _)|(Hno & _)]]; [|congruence|congruence].
        rewrite Hx. eexists. split; [apply elem_of_app; left; left|done].
      * destruct (proj2 (IH (S n))) as (o & Hin & Hok).
        { exists j, e. split; [done|]. by rewrite Nat.add_succ_r in Hsend. }
        exists o. split; [apply elem_of_app; by right|done].
Qed.

Lemma batchOutcomes_all_recorded_failures batch : forall n,
  length (filter (fun o => ~ success o) (batchOutcomes host n batch)) =
    length batch <->
  forall j e, batch !! j = Some e ->
    sendSucceeds host (n + j) (event e) = false /\
    conversionThrows host (n + j) (event e) = false.
Proof.
  induction batch as [|x rest IH]; intros n.
  - split; [by intros _ j e ?|done].
  - rewrite batchOutcomes_cons, filter_app, length_app.
    pose proof (batchOutcomes_length host rest (S n)) as Hle.
    pose proof (length_filter (fun o => ~ success o)
                  (batchOutcomes host (S n) rest)) as Hfl.
    cbn [length].
    destruct (settledOf_cases n x)
      as [(Hyes & _ & Hx)|[(Hno & Hconv & text & Hx)|(Hno & Hconv & raised & Hx)]];
      rewrite Hx.
    + split.
      * rewrite filter_cons_False by (cbn; by intros H; apply H).
        cbn [filter list_filter length]. lia.
      * intros Hall. destruct (Hall 0%nat x eq_refl) as [Hsend _].
        rewrite Nat.add_0_r in Hsend. congruence.
    + rewrite filter_cons_True by (cbn; by intros []).
      cbn [filter list_filter length Nat.add].
      split.
      * intros Hlen. apply Nat.succ_inj in Hlen.
        pose proof (proj1 (IH (S n)) Hlen) as Hrest.
        intros [|j] e Hj.
        -- injection Hj as <-. by rewrite Nat.add_0_r.
        -- rewrite Nat.add_succ_r. by apply Hrest.
      * intros Hall. f_equal. apply (IH (S n)). intros j e Hj.
        specialize (Hall (S j) e Hj). by rewrite Nat.add_succ_r in Hall.
    + split.
      * cbn [filter list_filter length]. lia.
      * intros Hall. destruct (Hall 0%nat x eq_refl) as [_ Hc].
        rewrite Nat.add_0_r in Hc. congruence.
Qed.

(** X17.  The status after a batch is decided by the outcome records of
    that batch: a send that resolved while the manager is disconnected
    gives connected; every send rejected, each with a value whose error
    text could be obtained, while connected gives disconnected; in every
    other case the status is the one before the batch.  In particular a
    connected manager stays connected when some send of the batch rejected
    with a value whose string conversion throws, even if every send of the
    batch failed. *)
Theorem processBatch_status_rule
    (batch : list QueuedTelemetryEvent) (s : Sys) :
  let first := length (sent s) in
  let s' := run (processBatch host config batch) s in
  let someResolved :=
    exists j e, batch !! j = Some e /\
                sendSucceeds host (first + j) (event e) = true in
  let allRecordedFailures :=
    forall j e, batch !! j = Some e ->
      sendSucceeds host (first + j) (event e) = false /\
      conversionThrows host (first + j) (event e) = false in
  (someResolved -> isConnected s = false -> isConnected s' = true) /\
  (allRecordedFailures -> isConnected s = true -> isConnected s' = false) /\
  (~ (someResolved /\ isConnected s = false) ->
   ~ (allRecordedFailures /\ isConnected s = true) ->
   isConnected s' = isConnected s) /\
  (forall j e, batch !! j = Some e ->
     conversionThrows host (first + j) (event e) = true ->
     isConnected s = true -> isConnected s' = true).
Proof.
  intros first s' someResolved allRecordedFailures.
  set (outcomes := batchOutcomes host first batch).
  assert (Hsome : (0 <? length (filter (fun o => success o) outcomes))%nat
                  = true <-> someResolved).
  { rewrite some_success_count. apply batchOutcomes_some_success. }
  assert (Hall : (length (filter (fun o => ~ success o) outcomes)
                  =? length batch)%nat = true <-> allRecordedFailures).
  { rewrite Nat.eqb_eq. apply batchOutcomes_all_recorded_failures. }
  assert (Hview : forall s2,
            s2 = feedBack host outcomes
                   (set_sent (sent s ++ (event <$> batch)) s) ->
            isConnected s2 = isConnected s).
  { intros s2 ->.
    pose proof (feedBack_view host outcomes
                  (set_sent (sent s ++ (event <$> batch)) s)) as Hv.
    unfold managerView in Hv. by injection Hv. }
  assert (Hrule :
    (someResolved -> isConnected s = false -> isConnected s' = true) /\
    (allRecordedFailures -> isConnected s = true -> isConnected s' = false) /\
    (~ (someResolved /\ isConnected s = false) ->
     ~ (allRecordedFailures /\ isConnected s = true) ->
     isConnected s' = isConnected s)).
  { unfold s'. rewrite processBatch_eq. cbv zeta. fold first. fold outcomes.
    destruct (0 <? _)%nat eqn:Hs; destruct (_ =? length batch)%nat eqn:Hf;
      destruct (isConnected s) eqn:Hc; cbn [andb negb];
      rewrite ?updateConnectionStatus_isConnected, ?(Hview _ eq_refl), ?Hc;
      (split; [intros Hyes Hd|split; [intros Hno Hd|intros Hn1 Hn2]]);
      try done.
    all: try (apply Hsome in Hyes; discriminate).
    all: try (apply Hall in Hno; discriminate).
    all: first [ by (destruct Hn1; split; [apply Hsome|])
               | by (destruct Hn2; split; [apply Hall|]) ]. }
  destruct Hrule as (Hup & Hdown & Hkeep).
  split; [done|]. split; [done|]. split; [done|].
  intros j e Hj Hconv Hc. rewrite Hkeep, Hc; [done| |].
  - intros [_ Hd]. congruence.
  - intros [Hno _]. destruct (Hno j e Hj) as [_ Hc']. congruence.
Qed.

(** C7.  With a status callback registered, on each path that can change
    the status the callback is invoked with the successive values the
    [isConnected] field takes, each different from the value the field held
    just before: [updateConnectionStatus] itself notifies exactly when its
    argument differs from the field, and a batch, a connectivity probe,
    [queueFailedEvent] and a whole processing cycle only ever notify on
    such transitions. *)
Theorem connection_callback_edge_triggered (s : Sys) :
  onConnectionStatusChange config = true ->
  (forall connected,
     let s' := run (updateConnectionStatus config connected) s in
     isConnected s' = connected /\
     notifications s' =
       notifications s ++
       (if Bool.eqb (isConnected s) connected then []
        else [ConnectionStatusChanged connected])) /\
  (forall batch, edgeTriggered s (run (processBatch host config batch) s)) /\
  edgeTriggered s (run (checkConnectionStatus host config) s) /\
  (forall ev err,
     edgeTriggered s (run (queueFailedEvent host queueConfig config ev err) s)) /\
  (forall s', processQueue host queueConfig config s = Some s' ->
              edgeTriggered s s').
Proof.
  intros Hcb. split.
  { intros connected s'. split; [apply updateConnectionStatus_isConnected|].
    unfold s'. rewrite updateConnectionStatus_eq, Hcb.
    destruct (Bool.eqb _ _); [by rewrite app_nil_r|done]. }
  split; [intros batch; by apply processBatch_edgeTriggered|].
  split; [by apply checkConnectionStatus_edgeTriggered|].
  split.
  { intros ev err. rewrite queueFailedEvent_eq. cbv zeta.
    eapply edgeTriggered_trans; [|apply notifyQueueSizeChange_edgeTriggered].
    assert (H1 : edgeTriggered s (run (enqueue host queueConfig ev err) s))
      by apply edgeTriggered_view, enqueue_view.
    destruct (_ && _); [|done].
    eapply edgeTriggered_trans;
      [done|by apply updateConnectionStatus_edgeTriggered]. }
  intros s'. unfold processQueue.
  destruct (isProcessing s); [intros [= <-]; apply edgeTriggered_refl|].
  unfold processQueue_try.
  set (s0 := set_isProcessing true s).
  set (s1 := run (pruneFailedEvents host queueConfig) s0).
  set (s2 := run (getEventsForRetry host queueConfig) s1).
  assert (H2 : edgeTriggered s s2).
  { eapply edgeTriggered_trans; [by apply (edgeTriggered_same s s0)|].
    eapply edgeTriggered_trans;
      [apply edgeTriggered_view, pruneFailedEvents_view|].
    apply edgeTriggered_view, getEventsForRetry_view. }
  destruct (_ =? 0)%nat.
  { intros [= <-]. eapply edgeTriggered_trans; [done|].
    by apply edgeTriggered_same. }
  destruct (createBatches _ _) as [batches|]; [|done].
  intros [= <-].
  eapply edgeTriggered_trans; [|by apply edgeTriggered_same].
  eapply edgeTriggered_trans; [done|].
  eapply edgeTriggered_trans; [by apply processBatches_edgeTriggered|].
  eapply edgeTriggered_trans; [by apply checkConnectionStatus_edgeTriggered|].
  apply notifyQueueSizeChange_edgeTriggered.
Qed.

End ManagerClaims.

Section CycleClaims.

Variable host : Host.
Variable queueConfig : TelemetryQueueConfig.
Variable config : RetryManagerConfig.

(** C8 (amended: for a cycle that finds something to retry).  A cycle that
    acquires the guard and finds at least one eligible event dispatches the
    batches, runs the connectivity check and, as its last step while the
    guard is still held, invokes the queue-size callback with the size of
    the queue and the warning flag; only then is the guard released.  Such
    a cycle ends for every batch size of at least 1; for a batch size below
    1 [createBatches] never returns, so the cycle never ends and the guard
    is never released.  A cycle that finds no eligible event ends in the
    state left by the pruning and the eligibility query with the guard
    released: it invokes no callback, sends nothing, makes no connectivity
    check and changes neither the connection status nor the queue left by
    the pruning. *)
Theorem processQueue_notifies_after_dispatch (s : Sys) :
  isProcessing s = false ->
  let s1 := run (pruneFailedEvents host queueConfig) (set_isProcessing true s) in
  let eligible := result (getEventsForRetry host queueConfig) s1 in
  let s2 := run (getEventsForRetry host queueConfig) s1 in
  (eligible <> [] -> onQueueSizeChange config = true ->
   (1 <= batchSize config ->
    exists batches sMid s',
      createBatches eligible (batchSize config) = Some batches /\
      sMid = run (checkConnectionStatus host config)
               (run (processBatches host config batches) s2) /\
      isProcessing sMid = true /\
      processQueue host queueConfig config s = Some s' /\
      s' = set_isProcessing false
             (run (notifyQueueSizeChange queueConfig config) sMid) /\
      notifications s' =
        notifications sMid ++
        [QueueSizeChanged (length (queueOf s'))
           (queueSizeWarningThreshold queueConfig <=?
            Z.of_nat (length (queueOf s')))] /\
      isProcessing s' = false) /\
   (batchSize config <= 0 ->
    processQueue host queueConfig config s = None)) /\
  (eligible = [] ->
   exists s',
     processQueue host queueConfig config s = Some s' /\
     s' = set_isProcessing false s2 /\
     isProcessing s' = false /\
     notifications s' = notifications s /\
     sent s' = sent s /\
     isConnected s' = isConnected s /\
     lastConnectionCheck s' = lastConnectionCheck s /\
     queueOf s' = queueOf s1).
Proof.
  intros Hguard s1 eligible s2.
  assert (Hview2 : managerView s2 = managerView (set_isProcessing true s)).
  { unfold s2, s1.
    by rewrite getEventsForRetry_view, pruneFailedEvents_view. }
  unfold managerView in Hview2. cbn in Hview2.
  injection Hview2 as Hsent Hnotes Hproc Hconn Hlast.
  split.
  - intros Hne Hcb. split; [intros Hsize|intros Hsize];
      [|unfold processQueue; rewrite Hguard; unfold processQueue_try;
        fold s1; fold eligible; fold s2;
        destruct eligible as [|e rest]; [done|]; cbn [length Nat.eqb];
        by rewrite createBatches_diverges].
    destruct (createBatches_total eligible (batchSize config) Hsize)
      as [batches Hbatches].
    exists batches.
    set (sMid := run (checkConnectionStatus host config)
                   (run (processBatches host config batches) s2)).
    exists sMid,
      (set_isProcessing false
         (run (notifyQueueSizeChange queueConfig config) sMid)).
    split; [done|]. split; [done|]. split.
    { unfold sMid.
      by rewrite checkConnectionStatus_guard, processBatches_guard. }
    split.
    { unfold processQueue. rewrite Hguard. unfold processQueue_try.
      fold s1. fold eligible. fold s2.
      destruct eligible as [|e rest]; [done|]. cbn [length Nat.eqb].
      by rewrite Hbatches. }
    rewrite notifyQueueSizeChange_eq, Hcb. by repeat split.
  - intros Hempty.
    exists (set_isProcessing false s2). split.
    { unfold processQueue. rewrite Hguard. unfold processQueue_try.
      fold s1. fold eligible. fold s2. by rewrite Hempty. }
    by repeat split.
Qed.

(** C10.  Whatever its arguments and whatever the status,
    [queueFailedEvent] stores the queue that [enqueue] produces and ends by
    invoking the queue-size callback, when one is registered, with the
    length of that queue and its warning flag.  The only conditional step is
    the status change: the status becomes disconnected when the error is a
    non-empty string and the manager is connected, and is kept otherwise, so
    that a status change implies that an error was given while connected. *)
Theorem queueFailedEvent_always_notifies
    (ev : TelemetryEvent) (err : option string) (s : Sys) :
  let s1 := run (enqueue host queueConfig ev err) s in
  let s' := run (queueFailedEvent host queueConfig config ev err) s in
  let flips := truthy_string err && isConnected s in
  queueOf s' = queueOf s1 /\
  queueOf s' =
    (if maxQueueSize queueConfig <=? Z.of_nat (length (queueOf s))
     then drop 1 (queueOf s) else queueOf s)
    ++ [queuedEventOf host ev err s] /\
  isConnected s' = (if flips then false else isConnected s) /\
  (isConnected s' <> isConnected s -> err <> None /\ isConnected s = true) /\
  notifications s' =
    notifications s ++
    (if flips && onConnectionStatusChange config
     then [ConnectionStatusChanged false] else []) ++
    (if onQueueSizeChange config
     then [QueueSizeChanged (length (queueOf s'))
             (queueSizeWarningThreshold queueConfig <=?
              Z.of_nat (length (queueOf s')))]
     else []).
Proof.
  intros s1 s' flips.
  assert (Hn1 : notifications s1 = notifications s) by reflexivity.
  assert (Hc1 : isConnected s1 = isConnected s) by reflexivity.
  assert (Hq : queueOf s' = queueOf s1).
  { unfold s'. rewrite queueFailedEvent_eq. cbv zeta. fold s1 flips.
    rewrite notifyQueueSizeChange_eq.
    transitivity (queueOf (if flips
                           then run (updateConnectionStatus config false) s1
                           else s1)).
    - by destruct (onQueueSizeChange config).
    - destruct flips; [apply updateConnectionStatus_queueOf|done]. }
  split; [done|]. split; [rewrite Hq; apply enqueue_queueOf|].
  assert (Hconn : isConnected s' = if flips then false else isConnected s).
  { unfold s'. rewrite queueFailedEvent_eq. cbv zeta. fold s1 flips.
    rewrite notifyQueueSizeChange_eq.
    transitivity (isConnected (if flips
                               then run (updateConnectionStatus config false) s1
                               else s1)).
    - by destruct (onQueueSizeChange config).
    - destruct flips; [apply updateConnectionStatus_isConnected|done]. }
  split; [done|]. split.
  { rewrite Hconn. unfold flips.
    destruct err as [e|]; destruct (isConnected s); cbn;
      try destruct (String.eqb e ""); cbn; intros Hx; try done. }
  revert Hq. unfold s'. rewrite queueFailedEvent_eq. cbv zeta. fold s1 flips.
  rewrite notifyQueueSizeChange_eq, updateConnectionStatus_eq, Hc1.
  unfold flips.
  destruct (truthy_string err); destruct (isConnected s);
    destruct (onConnectionStatusChange config);
    destruct (onQueueSizeChange config); cbn -[queueOf];
    intros Hq; rewrite ?Hn1, ?app_nil_r, <- ?app_assoc; try done.
Qed.

End CycleClaims.

(** * Scenarios *)

Lemma afterFourCalls_queue :
  id <$> queueOf afterFourCalls =
  ["1700000000003-r1"; "1700000000006-r2"; "1700000000009-r3"]%string.
Proof. vm_compute. reflexivity. Qed.

Lemma afterFourCalls_NoDup : NoDup (id <$> queueOf afterFourCalls).
Proof.
  rewrite afterFourCalls_queue. apply (bool_decide_unpack _). by vm_compute.
Qed.

(** Witness of C1: four enqueues into a queue of capacity 3 leave the last
    three payloads. *)
Lemma enqueue_keeps_most_recent_witness :
  1 <= maxQueueSize smallQueueConfig /\
  queueOf initialSys = [] /\
  length (queueOf afterFourCalls) = 3%nat /\
  payload <$> queueOf afterFourCalls = drop 1 fourCalls.
Proof.
  assert (Hpos : 1 <= maxQueueSize smallQueueConfig) by (cbn; lia).
  assert (Hempty : queueOf initialSys = []) by reflexivity.
  destruct (enqueue_keeps_most_recent steadyHost smallQueueConfig fourCalls
              initialSys Hpos Hempty) as (_ & Hlen & _ & Hpayload & _).
  split; [exact Hpos|]. split; [exact Hempty|].
  split; [exact Hlen|exact Hpayload].
Defined.

(** Counterexample to C1 as stated: with [maxQueueSize = 0] the first
    enqueue into the empty queue leaves one event, more than the capacity. *)
Lemma enqueue_zero_capacity_overflows :
  queueOf initialSys = [] /\
  length (queueOf (run (enqueueAll steadyHost zeroCapacityConfig
                          [(sampleEvent "test-0", None)]) initialSys)) = 1%nat /\
  ~ (Z.of_nat (length (queueOf (run (enqueueAll steadyHost zeroCapacityConfig
                          [(sampleEvent "test-0", None)]) initialSys)))
     <= maxQueueSize zeroCapacityConfig).
Proof.
  split; [reflexivity|]. split; [by vm_compute|].
  vm_compute. intros H. by apply H.
Qed.

(** The failing input of C2: an event whose one failed attempt was stamped
    with clock value 0 is returned at time 1000, one second before the rule
    of the specification makes it eligible. *)
Lemma getEventsForRetry_epoch_attempt :
  exists item,
    queueOf failedAtEpoch = [item] /\
    retryCount item = 1%nat /\
    lastRetryTimestamp item = Some 0 /\
    clock epochHost (dateNowCalls failedAtEpoch) = 1000 /\
    result (getEventsForRetry epochHost DEFAULT_QUEUE_CONFIG) failedAtEpoch =
      [item] /\
    ~ eligibleBySpec DEFAULT_QUEUE_CONFIG 1000 item.
Proof.
  eexists. split; [by vm_compute|].
  split; [reflexivity|]. split; [reflexivity|]. split; [by vm_compute|].
  split; [by vm_compute|].
  intros [_ [Hnone|(t & Ht & Hle)]]; [discriminate|].
  injection Ht as <-. vm_compute in Hle. by apply Hle.
Qed.

(** The failing input of C9: of three sends the first resolves, the second
    rejects with a value that [String] cannot convert and the third rejects
    with an [Error].  The second task rejects, so the settle-all join holds
    a rejected result; the result loop skips it, and the second event stays
    in the queue exactly as it was, its failed attempt not recorded, while
    its siblings are removed and marked failed. *)
Theorem processBatch_task_rejects_on_unprintable :
  let batch := queueOf afterFourCalls in
  let s' := run (processBatch garbledHost observedConfig batch) afterFourCalls in
  id <$> batch =
    ["1700000000003-r1"; "1700000000006-r2"; "1700000000009-r3"]%string /\
  result (allSettled (dispatchTask garbledHost) batch) afterFourCalls =
    [fulfilled {| outcomeId := "1700000000003-r1"; success := true;
                  outcomeError := None |};
     rejected conversionError;
     fulfilled {| outcomeId := "1700000000009-r3"; success := false;
                  outcomeError := Some "Network error"%string |}] /\
  sent s' = event <$> batch /\
  id <$> queueOf s' = ["1700000000006-r2"; "1700000000009-r3"]%string /\
  retryCount <$> queueOf s' = [0; 1]%nat /\
  lastRetryTimestamp <$> queueOf s' = [None; Some 1700000000013] /\
  queueOf s' !! 0%nat = batch !! 1%nat.
Proof.
  cbv zeta. split; [by vm_compute|]. split; [by vm_compute|].
  split; [by vm_compute|]. split; [by vm_compute|].
  split; [by vm_compute|]. split; by vm_compute.
Qed.

(** The failing input of C6: every send of a batch of three fails, each
    rejecting with a value that [String] cannot convert, while the manager
    is connected.  No failure is counted, so the manager stays connected
    and no callback is invoked; the same batch with sends that reject with
    an [Error] makes it disconnected. *)
Theorem processBatch_unrecorded_failures_keep_status :
  let batch := queueOf afterFourCalls in
  let s' := run (processBatch opaqueHost observedConfig batch) afterFourCalls in
  let t' := run (processBatch offlineHost observedConfig batch) afterFourCalls in
  length batch = 3%nat /\
  isConnected afterFourCalls = true /\
  (forall j e, batch !! j = Some e ->
     sendSucceeds opaqueHost (length (sent afterFourCalls) + j) (event e)
     = false) /\
  sent s' = event <$> batch /\
  isConnected s' = true /\
  notifications s' = [] /\
  queueOf s' = batch /\
  isConnected t' = false /\
  notifications t' = [ConnectionStatusChanged false].
Proof.
  cbv zeta. split; [by vm_compute|]. split; [reflexivity|].
  split; [by intros j e _|]. split; [by vm_compute|].
  split; [by vm_compute|]. split; [by vm_compute|].
  split; [by vm_compute|]. split; by vm_compute.
Qed.

(** Witness of C4 on the queue left by the four enqueues: removing the
    middle event, twice. *)
Lemma updateEventAfterRetry_success_once_witness :
  NoDup (id <$> queueOf afterFourCalls) /\
  let s1 := run (updateEventAfterRetry steadyHost "1700000000006-r2" true None)
                afterFourCalls in
  id <$> queueOf s1 = ["1700000000003-r1"; "1700000000009-r3"]%string /\
  run (updateEventAfterRetry steadyHost "1700000000006-r2" true None) s1 = s1.
Proof.
  split; [exact afterFourCalls_NoDup|].
  destruct (updateEventAfterRetry_success_once steadyHost
              "1700000000006-r2" None None afterFourCalls afterFourCalls_NoDup)
    as (_ & _ & Hagain & _).
  split; [by vm_compute|exact Hagain].
Defined.

(** Witness of C5 on the same queue: a failed retry of the middle event. *)
Lemma updateEventAfterRetry_failure_frame_witness :
  NoDup (id <$> queueOf afterFourCalls) /\
  exists item,
    queueOf afterFourCalls !! 1%nat = Some item /\
    id item = "1700000000006-r2"%string /\
    let q' := queueOf (run (updateEventAfterRetry steadyHost "1700000000006-r2"
                              false (Some "timeout"%string)) afterFourCalls) in
    retryCount <$> q' = [0; 1; 0]%nat /\
    lastRetryTimestamp <$> q' = [None; Some 1700000000012; None] /\
    (forall j, j <> 1%nat -> q' !! j = queueOf afterFourCalls !! j).
Proof.
  split; [exact afterFourCalls_NoDup|].
  assert (Hitem : exists item, queueOf afterFourCalls !! 1%nat = Some item /\
                               id item = "1700000000006-r2"%string).
  { eexists. split; [by vm_compute|reflexivity]. }
  destruct Hitem as (item & Hk & Hid). exists item.
  split; [exact Hk|]. split; [exact Hid|].
  destruct (updateEventAfterRetry_failure_frame steadyHost
              "1700000000006-r2" (Some "timeout"%string) afterFourCalls 1 item
              afterFourCalls_NoDup Hk Hid) as (_ & _ & Hframe).
  split; [by vm_compute|]. split; [by vm_compute|exact Hframe].
Defined.

(** Witness of C7: a cycle whose every send fails, started while connected,
    invokes the status callback once, with [false]. *)
Lemma connection_callback_edge_triggered_witness :
  onConnectionStatusChange observedConfig = true /\
  exists s',
    processQueue offlineHost smallQueueConfig observedConfig afterFourCalls =
      Some s' /\
    statusCallbacks (notifications s') = [false] /\
    isConnected s' = false /\
    edgeTriggered afterFourCalls s'.
Proof.
  split; [reflexivity|].
  destruct (connection_callback_edge_triggered offlineHost smallQueueConfig
              observedConfig afterFourCalls eq_refl)
    as (_ & _ & _ & _ & Hcycle).
  destruct (processQueue offlineHost smallQueueConfig observedConfig
              afterFourCalls) as [s'|] eqn:Hrun; [|by vm_compute in Hrun].
  exists s'. split; [reflexivity|].
  assert (Hs' : (fun o => (statusCallbacks ∘ notifications <$> o,
                           isConnected <$> o))
                  (processQueue offlineHost smallQueueConfig observedConfig
                     afterFourCalls) = (Some [false], Some false))
    by (by vm_compute).
  rewrite Hrun in Hs'. cbn in Hs'. injection Hs' as Hcalls Hconn.
  split; [exact Hcalls|]. split; [exact Hconn|]. by apply Hcycle.
Defined.

(** Witness of C8: with the three queued events eligible and every send
    resolving, the cycle makes four sends (the three events and the probe),
    ends with the callback for the emptied queue and then releases the
    guard. *)
Lemma processQueue_notifies_after_dispatch_witness :
  isProcessing afterFourCalls = false /\
  exists s',
    processQueue steadyHost smallQueueConfig observedConfig afterFourCalls =
      Some s' /\
    isProcessing s' = false /\
    length (sent s') = 4%nat /\
    last (notifications s') = Some (QueueSizeChanged 0 false).
Proof.
  split; [reflexivity|].
  destruct (processQueue_notifies_after_dispatch steadyHost smallQueueConfig
              observedConfig afterFourCalls eq_refl) as [Hbusy _].
  destruct Hbusy as [Hends _].
  - by vm_compute.
  - reflexivity.
  - destruct Hends
      as (batches & sMid & s' & _ & _ & _ & Hrun & _ & _ & Hguard);
      [cbn; lia|].
    exists s'. split; [exact Hrun|]. split; [exact Hguard|].
    assert (Hs' : (fun o => (length ∘ sent <$> o, last ∘ notifications <$> o))
                    (processQueue steadyHost smallQueueConfig observedConfig
                       afterFourCalls) =
                  (Some 4%nat, Some (Some (QueueSizeChanged 0 false))))
      by (by vm_compute).
    rewrite Hrun in Hs'. cbn in Hs'. injection Hs' as Hsent Hlast.
    split; [exact Hsent|exact Hlast].
Defined.

(** Counterexample to C8 as stated: cycles that acquire the guard and find
    nothing to retry end without any callback, on the empty queue and on a
    queue whose only event is pruned by the cycle itself. *)
Lemma processQueue_idle_cycle_is_silent :
  onQueueSizeChange observedConfig = true /\
  (isProcessing initialSys = false /\
   exists s',
     processQueue steadyHost DEFAULT_QUEUE_CONFIG observedConfig initialSys =
       Some s' /\
     notifications s' = [] /\ isProcessing s' = false) /\
  (isProcessing exhausted = false /\
   length (queueOf exhausted) = 1%nat /\
   exists s',
     processQueue steadyHost DEFAULT_QUEUE_CONFIG observedConfig exhausted =
       Some s' /\
     queueOf s' = [] /\ notifications s' = [] /\ isProcessing s' = false).
Proof.
  split; [reflexivity|]. split.
  - split; [reflexivity|]. eexists. split; [reflexivity|]. by split.
  - split; [reflexivity|]. split; [by vm_compute|].
    destruct (processQueue steadyHost DEFAULT_QUEUE_CONFIG observedConfig
                exhausted) as [s'|] eqn:Hrun; [|by vm_compute in Hrun].
    exists s'. split; [reflexivity|].
    assert (Hs' : (fun o => (queueOf <$> o, notifications <$> o,
                             isProcessing <$> o))
                    (processQueue steadyHost DEFAULT_QUEUE_CONFIG
                       observedConfig exhausted) =
                  (Some [], Some [], Some false))
      by (by vm_compute).
    rewrite Hrun in Hs'. cbn in Hs'. injection Hs' as Hq Hn Hp.
    by repeat split.
Qed.

(** Witness of X2 on a queue that has waited: at clock value
    1700000015000 the first event, failed once at 1700000009000, has waited
    out its two seconds and is returned; the second, failed twice and last
    at 1700000013000, still has to wait until 1700000017000 and is not; the
    third was never attempted and is returned. *)
Lemma getEventsForRetry_eligibleBySpec_witness :
  Forall (fun x => lastRetryTimestamp x <> Some 0) (queueOf backedOff) /\
  lastRetryTimestamp <$> queueOf backedOff =
    [Some 1700000009000; Some 1700000013000; None] /\
  retryCount <$> queueOf backedOff = [1; 2; 0]%nat /\
  clock slowHost (dateNowCalls backedOff) = 1700000015000 /\
  id <$> result (getEventsForRetry slowHost smallQueueConfig) backedOff =
    ["1700000000000-r0"; "1700000006000-r2"]%string /\
  forall item,
    item ∈ result (getEventsForRetry slowHost smallQueueConfig) backedOff
    <->
    item ∈ queueOf backedOff /\
    eligibleBySpec smallQueueConfig
      (clock slowHost (dateNowCalls backedOff)) item.
Proof.
  assert (Hstamps : Forall (fun x => lastRetryTimestamp x <> Some 0)
                      (queueOf backedOff)).
  { apply (bool_decide_unpack _). by vm_compute. }
  split; [exact Hstamps|]. split; [by vm_compute|]. split; [by vm_compute|].
  split; [by vm_compute|]. split; [by vm_compute|]. intros item.
  exact (getEventsForRetry_eligibleBySpec slowHost smallQueueConfig
           backedOff item Hstamps).
Defined.

(** * Invariants of the queue over sequences of calls *)

Lemma StronglySorted_sublist {A} (R : relation A) (l k : list A) :
  l `sublist_of` k -> StronglySorted R k -> StronglySorted R l.
Proof.
  induction 1 as [|x l k Hsub IH|x l k Hsub IH]; intros Hk; [done| |].
  - apply StronglySorted_inv in Hk as [Hk Hx].
    constructor; [by apply IH|].
    apply Forall_forall. intros y Hy.
    apply (proj1 (Forall_forall _ _) Hx). by eapply elem_of_sublist.
  - apply StronglySorted_inv in Hk as [Hk _]. by apply IH.
Qed.

Section QueueInvariants.

Variable host : Host.
Variable config : TelemetryQueueConfig.

Lemma queueCalls_cons c rest s :
  run (queueCalls host config (c :: rest)) s =
  run (queueCalls host config rest) (run (queueCall host config c) s).
Proof. reflexivity. Qed.

(** What each call does to the stored queue and to the clock counter. *)
Lemma updateEventAfterRetry_cases i ok err s :
  let q := queueOf s in
  let s' := run (updateEventAfterRetry host i ok err) s in
  (findIndex (fun x => id x = i) q = None /\ s' = s) \/
  (exists k, findIndex (fun x => id x = i) q = Some k /\ ok = true /\
             s' = run (saveQueue (delete k q) ;;;
                       updateMetadata host (delete k q)) s) \/
  (exists k, findIndex (fun x => id x = i) q = Some k /\ ok = false /\
             s' = run (saveQueue
                         (alter (markFailed (clock host (dateNowCalls s)) err) k q) ;;;
                       updateMetadata host
                         (alter (markFailed (clock host (dateNowCalls s)) err) k q))
                      (set_dateNowCalls (S (dateNowCalls s)) s)).
Proof.
  intros q s'.
  destruct (findIndex (fun x => id x = i) q) as [k|] eqn:Hk.
  - right. destruct ok; [left|right]; exists k; (split; [done|]);
      (split; [done|]); unfold s', updateEventAfterRetry, run;
      rewrite bind_eq; change (getQueue s) with (q, s); cbn [fst snd];
      rewrite Hk; reflexivity.
  - left. split; [done|]. by apply updateEventAfterRetry_absent.
Qed.

Lemma metadataInSync_save queue s :
  metadataInSync (run (saveQueue queue ;;; updateMetadata host queue) s).
Proof.
  unfold metadataInSync. rewrite (queueOf_save host).
  unfold saveQueue, updateMetadata, globalState_update, Date_now.
  run_async. by rewrite lookup_insert_eq.
Qed.

Lemma metadataInSync_globalState s s' :
  globalState s' = globalState s -> metadataInSync s -> metadataInSync s'.
Proof.
  intros Hg. unfold metadataInSync.
  by rewrite (queueOf_globalState s' s Hg), Hg.
Qed.

Lemma queueCall_metadataInSync c s :
  metadataInSync s -> metadataInSync (run (queueCall host config c) s).
Proof.
  intros Hs. destruct c as [ev err| |i ok err| | | | |]; cbn [queueCall].
  - unfold enqueue, run. rewrite bind_eq. cbn [fst snd].
    destruct (maxQueueSize config <=? _);
      unfold generateId, Math_random_suffix, Date_now; rewrite !bind_eq;
      cbn [fst snd ret]; apply metadataInSync_save.
  - by apply (metadataInSync_globalState s).
  - destruct (updateEventAfterRetry_cases i ok err s)
      as [[_ ->]|[(k & _ & _ & ->)|(k & _ & _ & ->)]];
      [done|apply metadataInSync_save..].
  - done.
  - done.
  - unfold metadataInSync, queueOf, getQueue, clear, saveQueue,
      globalState_get, globalState_update.
    run_async. rewrite lookup_delete_eq.
    rewrite lookup_delete_ne by (symmetry; apply queue_key_distinct).
    by rewrite lookup_insert_eq.
  - unfold discard, run. rewrite bind_eq. cbn [ret snd].
    rewrite pruneFailedEvents_eq. cbv zeta. cbn [snd].
    destruct (_ =? _)%nat; [done|apply metadataInSync_save].
  - done.
Qed.

End QueueInvariants.

Section QueueOrder.

Variable host : Host.
Variable config : TelemetryQueueConfig.

(** X5.  Whatever calls are made on the queue, the size record kept under
    the metadata key agrees with the stored queue afterwards, from any store
    where it did and in particular from the empty store. *)
Theorem metadata_stays_in_sync (cs : list QueueCall) :
  (forall s, metadataInSync s ->
             metadataInSync (run (queueCalls host config cs) s)) /\
  metadataInSync (run (queueCalls host config cs) initialSys).
Proof.
  assert (Hall : forall s, metadataInSync s ->
                   metadataInSync (run (queueCalls host config cs) s)).
  { induction cs as [|c rest IH]; intros s Hs; [done|].
    rewrite queueCalls_cons. by apply IH, queueCall_metadataInSync. }
  split; [done|]. by apply Hall.
Qed.

Lemma save_dateNowCalls queue s :
  dateNowCalls (run (saveQueue queue ;;; updateMetadata host queue) s) =
  S (dateNowCalls s).
Proof. reflexivity. Qed.

Lemma enqueue_dateNowCalls ev err s :
  dateNowCalls (run (enqueue host config ev err) s) =
  S (S (S (dateNowCalls s))).
Proof.
  unfold enqueue, run. rewrite bind_eq. cbn [fst snd].
  by destruct (maxQueueSize config <=? _).
Qed.

Lemma enqueueOrdered_later s s' :
  clockMonotone host ->
  queueOf s' `sublist_of` queueOf s ->
  (dateNowCalls s <= dateNowCalls s')%nat ->
  enqueueOrdered host s -> enqueueOrdered host s'.
Proof.
  intros Hmono Hsub Hle [Hsorted Hbound]. split.
  - eapply StronglySorted_sublist; [|done]. by apply fmap_sublist.
  - apply Forall_forall. intros item Hin.
    etrans; [|by apply Hmono].
    apply (proj1 (Forall_forall _ _) Hbound). by eapply elem_of_sublist.
Qed.

Lemma enqueueOrdered_same_stamps s s' :
  clockMonotone host ->
  timestamp <$> queueOf s' = timestamp <$> queueOf s ->
  (dateNowCalls s <= dateNowCalls s')%nat ->
  enqueueOrdered host s -> enqueueOrdered host s'.
Proof.
  intros Hmono Hst Hle [Hsorted Hbound]. split; [by rewrite Hst|].
  apply Forall_forall. intros item Hin.
  assert (Hstamp : timestamp item ∈ timestamp <$> queueOf s)
    by (rewrite <- Hst; by apply list_elem_of_fmap_2).
  apply list_elem_of_fmap in Hstamp as (item0 & -> & Hin0).
  etrans; [|by apply Hmono].
  by apply (proj1 (Forall_forall _ _) Hbound).
Qed.

Lemma markFailed_stamps now err k (q : list QueuedTelemetryEvent) :
  timestamp <$> alter (markFailed now err) k q = timestamp <$> q.
Proof.
  apply list_eq. intros j. rewrite !list_lookup_fmap.
  destruct (decide (j = k)) as [->|Hne].
  - rewrite list_lookup_alter_eq. by destruct (q !! k).
  - by rewrite list_lookup_alter_ne.
Qed.

Lemma queueCall_enqueueOrdered c s :
  clockMonotone host ->
  enqueueOrdered host s ->
  enqueueOrdered host (run (queueCall host config c) s).
Proof.
  intros Hmono Hs.
  destruct c as [ev err| |i ok err| | | | |]; cbn [queueCall]; try done.
  - destruct Hs as [Hsorted Hbound].
    pose (kept := if maxQueueSize config <=? Z.of_nat (length (queueOf s))
                  then drop 1 (queueOf s) else queueOf s).
    assert (Hkept : kept `sublist_of` queueOf s)
      by (unfold kept; destruct (_ <=? _); [apply sublist_drop|done]).
    assert (Hnew : timestamp (queuedEventOf host ev err s) =
                   clock host (S (dateNowCalls s))) by reflexivity.
    assert (Holder : forall item, item ∈ kept ->
                       timestamp item <= clock host (dateNowCalls s)).
    { intros item Hin. apply (proj1 (Forall_forall _ _) Hbound).
      by eapply elem_of_sublist. }
    split.
    + rewrite enqueue_queueOf. fold kept. rewrite fmap_app.
      apply StronglySorted_app_2.
      * intros x1 x2 Hx1 Hx2.
        apply list_elem_of_fmap in Hx1 as (item & -> & Hin).
        apply list_elem_of_singleton in Hx2 as ->. rewrite Hnew.
        etrans; [by apply Holder|]. apply Hmono. lia.
      * eapply StronglySorted_sublist; [by apply fmap_sublist|done].
      * repeat constructor.
    + rewrite enqueue_queueOf, enqueue_dateNowCalls. fold kept.
      apply Forall_app. split.
      * apply Forall_forall. intros item Hin.
        etrans; [by apply Holder|]. apply Hmono. lia.
      * apply Forall_singleton. rewrite Hnew. apply Hmono. lia.
  - by apply (enqueueOrdered_later s); [|done|cbn; lia|].
  - destruct (updateEventAfterRetry_cases host i ok err s)
      as [[_ ->]|[(k & _ & _ & ->)|(k & _ & _ & ->)]]; [done| |].
    + apply (enqueueOrdered_later s); [done| |cbn; lia|done].
      rewrite (queueOf_save host). apply sublist_delete.
    + apply (enqueueOrdered_same_stamps s); [done| |cbn; lia|done].
      rewrite (queueOf_save host). apply markFailed_stamps.
  - apply (enqueueOrdered_later s); [done| |cbn; lia|done].
    replace (queueOf (run clear s)) with (@nil QueuedTelemetryEvent);
      [apply sublist_nil_l|].
    symmetry. unfold queueOf, getQueue, clear, saveQueue, globalState_get,
      globalState_update.
    run_async.
    rewrite lookup_delete_ne by (symmetry; apply queue_key_distinct).
    by rewrite lookup_insert_eq.
  - unfold discard, run. rewrite bind_eq. cbn [ret snd].
    rewrite pruneFailedEvents_eq. cbv zeta. cbn [snd].
    destruct (_ =? _)%nat; [done|].
    apply (enqueueOrdered_later s); [done| |cbn; lia|done].
    rewrite (queueOf_save host). apply sublist_filter.
Qed.

End QueueOrder.

Section QueueOrderClaims.

Variable host : Host.
Variable config : TelemetryQueueConfig.

(** X6.  With a clock that never runs backwards, any sequence of queue
    calls keeps the queue ordered by enqueue time, so that
    [getQueueMetadata] reports as oldest and newest timestamps a lower and
    an upper bound of the timestamps of all queued events. *)
Theorem queue_ordered_by_enqueue_time (cs : list QueueCall) (s : Sys) :
  clockMonotone host ->
  enqueueOrdered host s ->
  let s' := run (queueCalls host config cs) s in
  let metadata := result (getQueueMetadata config) s' in
  enqueueOrdered host s' /\
  forall item, item ∈ queueOf s' ->
    exists oldest newest,
      oldestEventTimestamp metadata = Some oldest /\
      newestEventTimestamp metadata = Some newest /\
      oldest <= timestamp item <= newest.
Proof.
  intros Hmono Hs s' metadata.
  assert (Hs' : enqueueOrdered host s').
  { unfold s'. clear metadata s'. revert s Hs.
    induction cs as [|c rest IH]; intros s Hs; [done|].
    rewrite queueCalls_cons. by apply IH, queueCall_enqueueOrdered. }
  split; [done|]. intros item Hin.
  change (oldestEventTimestamp metadata) with (timestamp <$> queueOf s' !! 0%nat).
  change (newestEventTimestamp metadata) with (timestamp <$> last (queueOf s')).
  destruct Hs' as [Hsorted _].
  destruct (queueOf s') as [|first rest] eqn:Hq; [by apply elem_of_nil in Hin|].
  destruct (last (first :: rest)) as [final|] eqn:Hlast;
    [|by apply last_None in Hlast].
  exists (timestamp first), (timestamp final).
  split; [done|]. split; [done|]. split.
  - apply elem_of_cons in Hin as [->|Hin]; [done|].
    cbn in Hsorted. apply StronglySorted_inv in Hsorted as [_ Hfirst].
    apply (proj1 (Forall_forall _ _) Hfirst). by apply list_elem_of_fmap_2.
  - apply last_Some in Hlast as [front Hfront]. rewrite Hfront in Hin, Hsorted.
    apply elem_of_app in Hin as [Hin|Hin];
      [|by apply list_elem_of_singleton in Hin as ->].
    rewrite fmap_app in Hsorted.
    eapply StronglySorted_app_1_elem_of; [done| |].
    + by apply list_elem_of_fmap_2.
    + cbn. by left.
Qed.

End QueueOrderClaims.

Section Evolution.

Lemma aged_refl x : aged x x.
Proof. by split. Qed.

Lemma aged_trans x y z : aged x y -> aged y z -> aged x z.
Proof. intros [Hi1 Hr1] [Hi2 Hr2]. split; [congruence|lia]. Qed.

Lemma evolves_refl q : evolves q q.
Proof. induction q; constructor; [apply aged_refl|done]. Qed.

Lemma evolves_trans q1 q2 : evolves q1 q2 ->
  forall q3, evolves q2 q3 -> evolves q1 q3.
Proof.
  induction 1 as [|x y q q' Hxy _ IH|x q q' _ IH]; intros q3 H23; [done| |].
  - inversion H23 as [|y' z k k' Hyz Hk|y' k k' Hk]; subst.
    + apply evolves_keep; [by eapply aged_trans|by apply IH].
    + apply evolves_drop. by apply IH.
  - apply evolves_drop. by apply IH.
Qed.

Lemma evolves_to_nil q : evolves q [].
Proof. induction q; by constructor. Qed.

Lemma evolves_sublist q q' : q' `sublist_of` q -> evolves q q'.
Proof.
  induction 1; [constructor|apply evolves_keep; [apply aged_refl|done]|
                by apply evolves_drop].
Qed.

Lemma evolves_alter (f : QueuedTelemetryEvent -> QueuedTelemetryEvent) q :
  (forall x, aged x (f x)) -> forall k, evolves q (alter f k q).
Proof.
  intros Hf. induction q as [|x q IH]; intros k; [constructor|].
  destruct k as [|k]; cbn.
  - apply evolves_keep; [apply Hf|apply evolves_refl].
  - apply evolves_keep; [apply aged_refl|apply IH].
Qed.

Lemma evolves_identity q q' :
  evolves q q' -> (identity <$> q') `sublist_of` (identity <$> q).
Proof.
  induction 1 as [|x y q q' [Hid _] _ IH|x q q' _ IH]; cbn;
    [constructor|rewrite Hid; by constructor|by constructor].
Qed.

Lemma evolves_from q q' y :
  evolves q q' -> y ∈ q' -> exists x, x ∈ q /\ aged x y.
Proof.
  induction 1 as [|x y' q q' Hxy _ IH|x q q' _ IH]; intros Hy.
  - by apply elem_of_nil in Hy.
  - apply elem_of_cons in Hy as [->|Hy].
    + exists x. split; [by left|done].
    + destruct (IH Hy) as (x0 & Hin & Hx0). exists x0. split; [by right|done].
  - destruct (IH Hy) as (x0 & Hin & Hx0). exists x0. split; [by right|done].
Qed.

Lemma evolves_NoDup q q' :
  evolves q q' -> NoDup (id <$> q) -> NoDup (id <$> q').
Proof.
  intros Hev Hnd. apply (sublist_NoDup _ (id <$> q)); [done|].
  apply evolves_identity in Hev.
  assert (Hids : forall l : list QueuedTelemetryEvent,
            id <$> l = (fun p : string * TelemetryEvent * Z => p.1.1)
                         <$> (identity <$> l)).
  { intros l. rewrite <- list_fmap_compose. by apply list_fmap_ext. }
  rewrite !Hids. by apply fmap_sublist.
Qed.

End Evolution.

Section EvolutionOfCalls.

Variable host : Host.
Variable config : TelemetryQueueConfig.

Lemma queueOf_clear s : queueOf (run clear s) = [].
Proof.
  unfold queueOf, getQueue, clear, saveQueue, globalState_get,
    globalState_update.
  run_async.
  rewrite lookup_delete_ne by (symmetry; apply queue_key_distinct).
  by rewrite lookup_insert_eq.
Qed.

Lemma queueCall_evolves c s :
  isEnqueue c = false ->
  evolves (queueOf s) (queueOf (run (queueCall host config c) s)).
Proof.
  intros Hc.
  destruct c as [ev err| |i ok err| | | | |]; cbn [queueCall];
    try discriminate; try apply evolves_refl.
  - destruct (updateEventAfterRetry_cases host i ok err s)
      as [[_ ->]|[(k & _ & _ & ->)|(k & _ & _ & ->)]];
      rewrite ?(queueOf_save host).
    + apply evolves_refl.
    + apply evolves_sublist, sublist_delete.
    + apply evolves_alter. intros x. split; [done|cbn; lia].
  - rewrite queueOf_clear. apply evolves_to_nil.
  - unfold discard, run. rewrite bind_eq. cbn [ret snd].
    rewrite pruneFailedEvents_eq. cbv zeta. cbn [snd].
    destruct (_ =? _)%nat; [apply evolves_refl|].
    rewrite (queueOf_save host). apply evolves_sublist, sublist_filter.
Qed.

(** X7.  Calls other than [enqueue] only remove events or age them: after
    any such sequence the identities (id, payload, enqueue timestamp) of the
    queued events are a subsequence of those before, every remaining event
    has a retry count at least as high as it had, and distinct ids stay
    distinct. *)
Theorem queue_events_only_removed_or_aged (cs : list QueueCall) (s : Sys) :
  Forall (fun c => isEnqueue c = false) cs ->
  let q := queueOf s in
  let q' := queueOf (run (queueCalls host config cs) s) in
  (identity <$> q') `sublist_of` (identity <$> q) /\
  (forall y, y ∈ q' ->
     exists x, x ∈ q /\ identity x = identity y /\
               (retryCount x <= retryCount y)%nat) /\
  (NoDup (id <$> q) -> NoDup (id <$> q')).
Proof.
  intros Hcs q q'.
  assert (Hev : evolves q q').
  { unfold q, q'. clear q q'. revert s.
    induction Hcs as [|c rest Hc _ IH]; intros s; [apply evolves_refl|].
    rewrite queueCalls_cons.
    eapply evolves_trans; [by apply queueCall_evolves|apply IH]. }
  split; [by apply evolves_identity|]. split; [|by apply evolves_NoDup].
  intros y Hy. destruct (evolves_from q q' y Hev Hy) as (x & Hx & Hid & Hrc).
  by exists x.
Qed.

End EvolutionOfCalls.

Section RetrySchedule.

Variable host : Host.
Variable config : TelemetryQueueConfig.

Lemma markFailed_ids now err k (q : list QueuedTelemetryEvent) :
  id <$> alter (markFailed now err) k q = id <$> q.
Proof.
  apply list_eq. intros j. rewrite !list_lookup_fmap.
  destruct (decide (j = k)) as [->|Hne].
  - rewrite list_lookup_alter_eq. by destruct (q !! k).
  - by rewrite list_lookup_alter_ne.
Qed.

Lemma updateEventAfterRetry_failure_lookup i err s k item :
  NoDup (id <$> queueOf s) ->
  queueOf s !! k = Some item ->
  id item = i ->
  let s1 := run (updateEventAfterRetry host i false err) s in
  queueOf s1 !! k = Some (markFailed (clock host (dateNowCalls s)) err item) /\
  id <$> queueOf s1 = id <$> queueOf s.
Proof.
  intros Hnd Hk <- s1. unfold s1.
  rewrite (updateEventAfterRetry_failure_at host _ err s k)
    by by apply findIndex_id_NoDup.
  split; [by rewrite list_lookup_alter_eq, Hk|apply markFailed_ids].
Qed.

(** X8.  An event is eligible for retry as soon as it is enqueued: the call
    of [getEventsForRetry] that follows [enqueue] returns it, whatever the
    clock reads, unless [maxRetries] is below 1, in which case it is never
    returned. *)
Theorem fresh_event_immediately_eligible
    (ev : TelemetryEvent) (err : option string) (s : Sys) :
  let s1 := run (enqueue host config ev err) s in
  let item := queuedEventOf host ev err s in
  last (queueOf s1) = Some item /\
  (item ∈ result (getEventsForRetry host config) s1 <->
   1 <= maxRetries config).
Proof.
  intros s1 item.
  assert (Hq : queueOf s1 =
               (if maxQueueSize config <=? Z.of_nat (length (queueOf s))
                then drop 1 (queueOf s) else queueOf s) ++ [item])
    by apply enqueue_queueOf.
  split; [rewrite Hq; apply last_snoc|].
  unfold result. rewrite getEventsForRetry_eq. cbn [fst].
  rewrite list_elem_of_filter.
  assert (Hready : forall now,
            readyForRetry config now item =
            if maxRetries config <=? 0 then false else true) by reflexivity.
  rewrite Hready.
  destruct (Z.leb_spec (maxRetries config) 0) as [Hle|Hlt].
  - split; [by intros [[] _]|lia].
  - split; [lia|]. intros _. split; [done|].
    rewrite Hq. apply elem_of_app. right. by left.
Qed.

Lemma readyForRetry_backoff now item t :
  lastRetryTimestamp item = Some t -> t <> 0 ->
  readyForRetry config now item = true <->
  Z.of_nat (retryCount item) < maxRetries config /\
  t + 2 ^ Z.of_nat (retryCount item) * 1000 <= now.
Proof.
  intros Ht Hnz. unfold readyForRetry, truthy_number. rewrite Ht. cbn.
  destruct (Z.leb_spec (maxRetries config) (Z.of_nat (retryCount item)));
    [split; [done|lia]|].
  destruct (Z.eqb_spec t 0); [done|]. cbn. rewrite Z.leb_le. split; [done|].
  by intros [_ ?].
Qed.

(** X9.  After a failed retry recorded at clock value [t] (not 0) that
    brings the retry count to [k], the event is returned by
    [getEventsForRetry] in a later state that still holds it exactly when
    [k < maxRetries] and the clock read by that call has reached
    [t + 2^k] seconds; as [k] is at least 1 the wait is at least two
    seconds. *)
Theorem failed_event_waits_out_backoff
    (i : string) (err : option string) (s : Sys)
    (k : nat) (item : QueuedTelemetryEvent) :
  NoDup (id <$> queueOf s) ->
  queueOf s !! k = Some item ->
  id item = i ->
  clock host (dateNowCalls s) <> 0 ->
  let t := clock host (dateNowCalls s) in
  let s1 := run (updateEventAfterRetry host i false err) s in
  let failed := markFailed t err item in
  queueOf s1 !! k = Some failed /\
  forall s2, failed ∈ queueOf s2 ->
    (failed ∈ result (getEventsForRetry host config) s2 <->
     Z.of_nat (S (retryCount item)) < maxRetries config /\
     t + 2 ^ Z.of_nat (S (retryCount item)) * 1000 <=
       clock host (dateNowCalls s2)) /\
    (clock host (dateNowCalls s2) < t + 2000 ->
     failed ∉ result (getEventsForRetry host config) s2).
Proof.
  intros Hnd Hk Hid Hnz t s1 failed.
  destruct (updateEventAfterRetry_failure_lookup i err s k item Hnd Hk Hid)
    as [Hfailed _].
  split; [done|]. intros s2 Hin.
  assert (Hiff : failed ∈ result (getEventsForRetry host config) s2 <->
            Z.of_nat (S (retryCount item)) < maxRetries config /\
            t + 2 ^ Z.of_nat (S (retryCount item)) * 1000 <=
              clock host (dateNowCalls s2)).
  { unfold result. rewrite getEventsForRetry_eq. cbn [fst].
    rewrite list_elem_of_filter.
    pose proof (readyForRetry_backoff (clock host (dateNowCalls s2)) failed t
                  eq_refl Hnz) as Hb.
    change (retryCount failed) with (S (retryCount item)) in Hb.
    rewrite <- Hb.
    split; [intros [Hr _]; by apply Is_true_true|].
    intros Hr. split; [by apply Is_true_true|done]. }
  split; [done|]. intros Hearly Hret. apply Hiff in Hret as [_ Hwait].
  assert (2 <= 2 ^ Z.of_nat (S (retryCount item))).
  { rewrite Nat2Z.inj_succ, Z.pow_succ_r by lia.
    assert (0 < 2 ^ Z.of_nat (retryCount item)) by (apply Z.pow_pos_nonneg; lia).
    lia. }
  lia.
Qed.

Lemma repeated_failure i err k n : forall s item,
  NoDup (id <$> queueOf s) ->
  queueOf s !! k = Some item ->
  id item = i ->
  let s' := run (queueCalls host config
                   (replicate n (CallUpdateEventAfterRetry i false err))) s in
  exists item',
    queueOf s' !! k = Some item' /\
    identity item' = identity item /\
    retryCount item' = (retryCount item + n)%nat /\
    id <$> queueOf s' = id <$> queueOf s.
Proof.
  induction n as [|n IH]; intros s item Hnd Hk Hid s'.
  - exists item. by rewrite Nat.add_0_r.
  - unfold s'. cbn [replicate]. rewrite queueCalls_cons. cbn [queueCall].
    destruct (updateEventAfterRetry_failure_lookup i err s k item Hnd Hk Hid)
      as [Hk1 Hids1].
    destruct (IH (run (updateEventAfterRetry host i false err) s)
                 (markFailed (clock host (dateNowCalls s)) err item))
      as (item' & Hk' & Hident & Hrc & Hids); [by rewrite Hids1|done|done|].
    exists item'. split; [done|]. split; [by rewrite Hident|].
    split; [rewrite Hrc; cbn; lia|by rewrite Hids, Hids1].
Qed.

(** X10.  With distinct ids, [n] failed retries of a queued event raise its
    retry count by exactly [n] and leave its identity and the ids of the
    queue unchanged; once the count has reached [maxRetries] the event is no
    longer returned by [getEventsForRetry], whatever the clock reads, and
    the next [pruneFailedEvents] removes it and reports at least one
    removal. *)
Theorem retries_are_bounded
    (i : string) (err : option string) (s : Sys)
    (k n : nat) (item : QueuedTelemetryEvent) :
  NoDup (id <$> queueOf s) ->
  queueOf s !! k = Some item ->
  id item = i ->
  let s' := run (queueCalls host config
                   (replicate n (CallUpdateEventAfterRetry i false err))) s in
  exists item',
    queueOf s' !! k = Some item' /\
    identity item' = identity item /\
    retryCount item' = (retryCount item + n)%nat /\
    id <$> queueOf s' = id <$> queueOf s /\
    (maxRetries config <= Z.of_nat (retryCount item + n) ->
     (i ∉ (id <$> result (getEventsForRetry host config) s')) /\
     (i ∉ (id <$> queueOf (run (pruneFailedEvents host config) s'))) /\
     (1 <= result (pruneFailedEvents host config) s')%nat).
Proof.
  intros Hnd Hk Hid s'.
  destruct (repeated_failure i err k n s item Hnd Hk Hid)
    as (item' & Hk' & Hident & Hrc & Hids).
  fold s' in Hk', Hids.
  exists item'. do 4 (split; [done|]). intros Hmax.
  assert (Hnd' : NoDup (id <$> queueOf s')) by by rewrite Hids.
  assert (Hid' : id item' = i).
  { unfold identity in Hident. by injection Hident as -> _ _. }
  assert (Honly : forall x, x ∈ queueOf s' -> id x = i -> x = item').
  { intros x Hx Hxi. apply list_elem_of_lookup in Hx as [j Hj].
    assert (j = k); [|congruence].
    apply (NoDup_lookup (id <$> queueOf s') j k i); [done| |];
      rewrite list_lookup_fmap;
      [rewrite Hj; cbn; by rewrite Hxi|rewrite Hk'; cbn; by rewrite Hid']. }
  assert (Hgone : forall l : list QueuedTelemetryEvent,
            (forall x, x ∈ l -> x ∈ queueOf s' /\
                       Z.of_nat (retryCount x) < maxRetries config) ->
            i ∉ (id <$> l)).
  { intros l Hl Hin. apply list_elem_of_fmap in Hin as (x & Hxi & Hx).
    destruct (Hl x Hx) as [Hxq Hlt].
    rewrite (Honly x Hxq (eq_sym Hxi)), Hrc in Hlt. lia. }
  split; [|split].
  - apply Hgone. intros x Hx. unfold result in Hx.
    rewrite getEventsForRetry_eq in Hx. cbn [fst] in Hx.
    apply list_elem_of_filter in Hx as [Hready Hx]. split; [done|].
    unfold readyForRetry in Hready.
    destruct (Z.leb_spec (maxRetries config) (Z.of_nat (retryCount x)));
      [done|lia].
  - apply Hgone. intros x Hx. unfold run in Hx.
    rewrite pruneFailedEvents_eq in Hx. cbv zeta in Hx. cbn [snd] in Hx.
    destruct (Nat.eqb_spec
                (length (filter (fun item0 => Z.of_nat (retryCount item0) <
                                              maxRetries config) (queueOf s')))
                (length (queueOf s'))) as [Heq|Hne].
    + apply filter_length_eq in Heq. rewrite <- Heq in Hx.
      by apply list_elem_of_filter in Hx as [? ?].
    + rewrite (queueOf_save host) in Hx.
      by apply list_elem_of_filter in Hx as [? ?].
  - unfold result. rewrite pruneFailedEvents_eq. cbv zeta. cbn [fst].
    assert (length (filter (fun item0 => (Z.of_nat (retryCount item0) <
                                          maxRetries config)%Z) (queueOf s'))
            < length (queueOf s'))%nat as Hshrinks; [|lia].
    apply (length_filter_lt _ _ item').
    + apply list_elem_of_lookup. by exists k.
    + rewrite Hrc. lia.
Qed.

End RetrySchedule.

Section ProbeAndTrace.

Variable host : Host.
Variable queueConfig : TelemetryQueueConfig.
Variable config : RetryManagerConfig.

Lemma updateConnectionStatus_frame connected s :
  let s' := run (updateConnectionStatus config connected) s in
  globalState s' = globalState s /\ updateCalls s' = updateCalls s /\
  dateNowCalls s' = dateNowCalls s /\ sent s' = sent s /\
  lastConnectionCheck s' = lastConnectionCheck s.
Proof.
  cbv zeta. rewrite updateConnectionStatus_eq.
  destruct (Bool.eqb _ _); [done|].
  by destruct (onConnectionStatusChange config).
Qed.

Lemma checkConnectionStatus_store (s : Sys) :
  globalState (run (checkConnectionStatus host config) s) = globalState s /\
  updateCalls (run (checkConnectionStatus host config) s) = updateCalls s.
Proof.
  rewrite checkConnectionStatus_eq. cbv zeta.
  destruct (_ <? _); [done|].
  set (s2 := set_sent _ _).
  destruct (transport host _ _); destruct (isConnected s); cbn [negb];
    try done;
    match goal with
    | |- context [updateConnectionStatus config ?b] =>
        by destruct (updateConnectionStatus_frame b s2) as (-> & -> & _)
    end.
Qed.

(** X11.  The connectivity check is throttled and never touches the queue:
    when less than 60 seconds have passed since the last check it sends
    nothing and changes neither the status nor the time of the last check;
    otherwise it sends exactly one [telemetry_connection_check] event
    stamped with the current time, records that time, and leaves the status
    equal to the outcome of that send.  In both cases the store is as
    before. *)
Theorem connectivity_check_is_throttled (s : Sys) :
  let now := clock host (dateNowCalls s) in
  let s' := run (checkConnectionStatus host config) s in
  globalState s' = globalState s /\
  updateCalls s' = updateCalls s /\
  (now - lastConnectionCheck s < connectionCheckInterval ->
   sent s' = sent s /\ isConnected s' = isConnected s /\
   notifications s' = notifications s /\
   lastConnectionCheck s' = lastConnectionCheck s) /\
  (connectionCheckInterval <= now - lastConnectionCheck s ->
   sent s' = sent s ++ [connectionCheckEvent now] /\
   lastConnectionCheck s' = now /\
   isConnected s' =
     sendSucceeds host (length (sent s)) (connectionCheckEvent now)).
Proof.
  intros now s'. unfold s'. rewrite checkConnectionStatus_eq. cbv zeta.
  fold now. unfold sendSucceeds.
  destruct (Z.ltb_spec (now - lastConnectionCheck s) connectionCheckInterval)
    as [Hearly|Hdue].
  { split; [done|]. split; [done|]. split; [done|]. intros. lia. }
  set (s2 := set_sent _ _).
  assert (Hframe : forall b,
            let s3 := run (updateConnectionStatus config b) s2 in
            globalState s3 = globalState s /\ updateCalls s3 = updateCalls s /\
            sent s3 = sent s ++ [connectionCheckEvent now] /\
            lastConnectionCheck s3 = now /\ isConnected s3 = b).
  { intros b s3.
    destruct (updateConnectionStatus_frame b s2) as (Hg & Hu & _ & Hs & Hl).
    fold s3 in Hg, Hu, Hs, Hl. rewrite Hg, Hu, Hs, Hl.
    repeat split. apply updateConnectionStatus_isConnected. }
  destruct (transport host (length (sent s)) (connectionCheckEvent now));
    destruct (isConnected s) eqn:Hc; cbn [negb];
    try (destruct (Hframe true) as (Hg & Hu & Hs & Hl & Hi));
    try (destruct (Hframe false) as (Hg' & Hu' & Hs' & Hl' & Hi'));
    (split; [done|]); (split; [done|]); (split; [intros; lia|]);
    intros _; by repeat split.
Qed.

Lemma connectivity_check_cases s :
  sent (run (checkConnectionStatus host config) s) = sent s \/
  exists now,
    sent (run (checkConnectionStatus host config) s) =
    sent s ++ [connectionCheckEvent now].
Proof.
  rewrite checkConnectionStatus_eq. cbv zeta.
  destruct (_ <? _); [by left|right].
  exists (clock host (dateNowCalls s)).
  set (s2 := set_sent _ _).
  destruct (transport host _ _); destruct (isConnected s); cbn [negb];
    try done;
    by match goal with
       | |- context [updateConnectionStatus config ?b] =>
           destruct (updateConnectionStatus_frame b s2) as (_ & _ & _ & -> & _)
       end.
Qed.

Lemma processBatch_sent batch s :
  sent (run (processBatch host config batch) s) =
  sent s ++ (event <$> batch).
Proof.
  rewrite processBatch_eq. cbv zeta.
  set (s2 := feedBack _ _ _).
  assert (Hs2 : sent s2 = sent s ++ (event <$> batch)).
  { pose proof (feedBack_view host
      (batchOutcomes host (length (sent s)) batch)
      (set_sent (sent s ++ (event <$> batch)) s)) as Hv.
    fold s2 in Hv. unfold managerView in Hv. by injection Hv. }
  destruct (_ && negb _);
    [by destruct (updateConnectionStatus_frame true s2) as (_ & _ & _ & -> & _)|].
  destruct (_ && isConnected s); [|done].
  by destruct (updateConnectionStatus_frame false s2) as (_ & _ & _ & -> & _).
Qed.

Lemma processBatches_sent batches : forall s,
  sent (run (processBatches host config batches) s) =
  sent s ++ (event <$> concat batches).
Proof.
  induction batches as [|batch rest IH]; intros s.
  - by rewrite app_nil_r.
  - rewrite processBatches_run, IH, processBatch_sent. cbn [concat].
    by rewrite fmap_app, app_assoc.
Qed.

Lemma notifyQueueSizeChange_sent s :
  sent (run (notifyQueueSizeChange queueConfig config) s) = sent s.
Proof.
  rewrite notifyQueueSizeChange_eq. by destruct (onQueueSizeChange config).
Qed.

Lemma createBatches_concat {T} (items : list T) (size : Z) :
  1 <= size ->
  exists batches,
    createBatches items size = Some batches /\ concat batches = items.
Proof.
  intros Hsize.
  destruct (createBatches_loop_partition items size Hsize
              (length items) 0 []) as (all & Hrun & Hconcat & _);
    [lia|lia|done|].
  exists all. split; [done|]. by rewrite Hconcat.
Qed.

(** The shape of a cycle that holds the guard. *)
Lemma processQueue_shape (s : Sys) :
  isProcessing s = false ->
  1 <= batchSize config ->
  let s1 := run (pruneFailedEvents host queueConfig) (set_isProcessing true s) in
  let eligible := result (getEventsForRetry host queueConfig) s1 in
  let s2 := run (getEventsForRetry host queueConfig) s1 in
  (eligible = [] /\
   processQueue host queueConfig config s = Some (set_isProcessing false s2)) \/
  (eligible <> [] /\
   exists batches,
     concat batches = eligible /\
     processQueue host queueConfig config s =
     Some (set_isProcessing false
             (run (notifyQueueSizeChange queueConfig config)
                (run (checkConnectionStatus host config)
                   (run (processBatches host config batches) s2))))).
Proof.
  intros Hguard Hsize s1 eligible s2.
  unfold processQueue. rewrite Hguard. unfold processQueue_try.
  fold s1. fold eligible. fold s2.
  destruct eligible as [|e rest] eqn:He; [by left|right].
  split; [done|]. cbn [length Nat.eqb].
  destruct (createBatches_concat (e :: rest) (batchSize config) Hsize)
    as (batches & -> & Hconcat).
  by exists batches.
Qed.

(** X12.  A cycle that acquires the guard (with a batch size of at least 1)
    hands every eligible event to the transport exactly once, in stored
    order, and then makes at most one connectivity check; a cycle that finds
    nothing eligible sends nothing at all.  In either case the guard is
    free again afterwards. *)
Theorem cycle_sends_each_eligible_event_once (s : Sys) :
  isProcessing s = false ->
  1 <= batchSize config ->
  let s1 := run (pruneFailedEvents host queueConfig) (set_isProcessing true s) in
  let eligible := result (getEventsForRetry host queueConfig) s1 in
  exists s' probe,
    processQueue host queueConfig config s = Some s' /\
    isProcessing s' = false /\
    sent s' = sent s ++ (event <$> eligible) ++ probe /\
    (probe = [] \/ exists now, probe = [connectionCheckEvent now]) /\
    (eligible = [] -> probe = []).
Proof.
  intros Hguard Hsize s1 eligible.
  assert (Hsent2 : sent (run (getEventsForRetry host queueConfig) s1) = sent s).
  { transitivity (sent s1); [reflexivity|].
    pose proof (pruneFailedEvents_view host queueConfig
                  (set_isProcessing true s)) as Hv1.
    fold s1 in Hv1. unfold managerView in Hv1. by injection Hv1. }
  pose proof (processQueue_shape s Hguard Hsize) as Hshape.
  cbv zeta in Hshape. fold s1 in Hshape. fold eligible in Hshape.
  destruct Hshape as [[Hempty Hrun]|(Hne & batches & Hconcat & Hrun)].
  - eexists _, []. split; [exact Hrun|]. split; [done|].
    rewrite Hempty. cbn [sent set_isProcessing]. rewrite Hsent2.
    cbn. rewrite app_nil_r. split; [done|]. split; [by left|done].
  - set (s3 := run (processBatches host config batches) _) in Hrun.
    assert (Hsent3 : sent s3 = sent s ++ (event <$> eligible))
      by (unfold s3; by rewrite processBatches_sent, Hsent2, Hconcat).
    destruct (connectivity_check_cases s3) as [Hc|[now Hc]].
    + eexists _, []. split; [exact Hrun|]. split; [done|].
      cbn [sent set_isProcessing].
      rewrite notifyQueueSizeChange_sent, Hc, Hsent3, app_nil_r.
      split; [done|]. split; [by left|done].
    + eexists _, [connectionCheckEvent now]. split; [exact Hrun|].
      split; [done|].
      cbn [sent set_isProcessing].
      rewrite notifyQueueSizeChange_sent, Hc, Hsent3, <- app_assoc.
      split; [done|]. split; [right; by exists now|done].
Qed.

End ProbeAndTrace.

Section CycleEffect.

Variable host : Host.
Variable queueConfig : TelemetryQueueConfig.
Variable config : RetryManagerConfig.

Lemma storeView_queueOf s t : storeView s = storeView t -> queueOf s = queueOf t.
Proof. intros [= Hg _ _]. by apply queueOf_globalState. Qed.

Lemma updateEventAfterRetry_storeView i ok err s t :
  storeView s = storeView t ->
  storeView (run (updateEventAfterRetry host i ok err) s) =
  storeView (run (updateEventAfterRetry host i ok err) t).
Proof.
  intros Hst.
  destruct s as [g u d r se n p c l], t as [g' u' d' r' se' n' p' c' l'].
  unfold storeView in Hst. cbn in Hst. injection Hst as <- <- <-.
  unfold updateEventAfterRetry, run. rewrite !bind_eq.
  change (getQueue (mkSys g u d r' se' n' p' c' l')).1
    with (getQueue (mkSys g u d r se n p c l)).1.
  cbn [snd getQueue].
  destruct (findIndex _ _); [|done]. by destruct ok.
Qed.

Lemma feedBack_storeView outcomes : forall s t,
  storeView s = storeView t ->
  storeView (feedBack host outcomes s) = storeView (feedBack host outcomes t).
Proof.
  induction outcomes as [|o rest IH]; intros s t Hst; [done|].
  rewrite !feedBack_cons. by apply IH, updateEventAfterRetry_storeView.
Qed.

Lemma feedBack_app o1 o2 s :
  feedBack host (o1 ++ o2) s = feedBack host o2 (feedBack host o1 s).
Proof. unfold feedBack. by rewrite foldl_app. Qed.

Lemma batchOutcomes_app b1 b2 : forall n,
  batchOutcomes host n (b1 ++ b2) =
  batchOutcomes host n b1 ++ batchOutcomes host (n + length b1) b2.
Proof.
  intros n. unfold batchOutcomes, fulfilledValues.
  by rewrite batchResults_app, omap_app.
Qed.

(** An outcome record comes from the task of one event of the batch. *)
Lemma batchOutcomes_elem_of batch n o :
  o ∈ batchOutcomes host n batch <->
  exists j e, batch !! j = Some e /\
              settledOf host (n + j) e = fulfilled o.
Proof.
  unfold batchOutcomes, fulfilledValues. rewrite list_elem_of_omap. split.
  - intros (r & Hin & Hr). destruct r as [value|]; [|done].
    injection Hr as ->.
    apply list_elem_of_lookup in Hin as [j Hj].
    rewrite batchResults_lookup in Hj.
    destruct (batch !! j) as [e|] eqn:He; [|done]. injection Hj as Hj.
    by exists j, e.
  - intros (j & e & Hj & Hs). exists (fulfilled o). split; [|done].
    apply list_elem_of_lookup. exists j.
    by rewrite batchResults_lookup, Hj, <- Hs.
Qed.

Lemma updateConnectionStatus_storeView connected s :
  storeView (run (updateConnectionStatus config connected) s) = storeView s.
Proof.
  destruct (updateConnectionStatus_frame config connected s)
    as (Hg & Hu & Hd & _). unfold storeView. by rewrite Hg, Hu, Hd.
Qed.

Lemma processBatch_storeView batch s :
  storeView (run (processBatch host config batch) s) =
  storeView (feedBack host (batchOutcomes host (length (sent s)) batch) s).
Proof.
  rewrite processBatch_eq. cbv zeta.
  set (s2 := feedBack _ _ (set_sent _ _)).
  assert (Hs2 : storeView s2 =
                storeView (feedBack host
                             (batchOutcomes host (length (sent s)) batch) s))
    by by apply feedBack_storeView.
  destruct (_ && negb _); [by rewrite updateConnectionStatus_storeView|].
  destruct (_ && isConnected s); [by rewrite updateConnectionStatus_storeView|done].
Qed.

Lemma processBatches_storeView batches : forall s,
  storeView (run (processBatches host config batches) s) =
  storeView (feedBack host
               (batchOutcomes host (length (sent s)) (concat batches)) s).
Proof.
  induction batches as [|batch rest IH]; intros s; [done|].
  rewrite processBatches_run, IH. cbn [concat].
  rewrite batchOutcomes_app, feedBack_app.
  rewrite (processBatch_sent host config), length_app, length_fmap.
  by apply feedBack_storeView, processBatch_storeView.
Qed.

(** Membership in the queue after one update, with distinct ids. *)
Lemma updateEventAfterRetry_elem_of i ok err s :
  NoDup (id <$> queueOf s) ->
  let q := queueOf s in
  let q1 := queueOf (run (updateEventAfterRetry host i ok err) s) in
  NoDup (id <$> q1) /\
  forall y, y ∈ q1 <->
    (y ∈ q /\ id y <> i) \/
    (ok = false /\ exists x, x ∈ q /\ id x = i /\
       y = markFailed (clock host (dateNowCalls s)) err x).
Proof.
  intros Hnd q q1.
  assert (Hlookup : forall j k x y, q !! j = Some x -> q !! k = Some y ->
            id x = id y -> j = k).
  { intros j k x y Hj Hk Heq.
    apply (NoDup_lookup (id <$> q) j k (id x)); [done| |];
      rewrite list_lookup_fmap; [by rewrite Hj|by rewrite Hk, Heq]. }
  unfold q1.
  destruct (updateEventAfterRetry_cases host i ok err s)
    as [[Hf ->]|[(k & Hf & -> & ->)|(k & Hf & -> & ->)]];
    rewrite ?(queueOf_save host); fold q in Hf |- *.
  - split; [done|]. apply findIndex_None in Hf. intros y. split.
    + intros Hy. left. split; [done|].
      by apply (proj1 (Forall_forall _ _) Hf).
    + intros [[Hy _]|(_ & x & Hx & Hxi & _)]; [done|].
      by apply (proj1 (Forall_forall _ _) Hf) in Hx.
  - apply findIndex_Some in Hf as (x0 & Hk & Hx0 & _). split.
    { rewrite list_fmap_delete. eapply sublist_NoDup; [done|apply sublist_delete]. }
    intros y. split.
    + intros Hy. left. split; [by eapply list_elem_of_delete_inv|].
      intros Hyi. apply (NoDup_delete_notin (id <$> q) k i); [done| |].
      * by rewrite list_lookup_fmap, Hk, <- Hx0.
      * rewrite <- list_fmap_delete, <- Hyi. by apply list_elem_of_fmap_2.
    + intros [[Hy Hyi]|(Hno & _)]; [|done].
      apply list_elem_of_lookup in Hy as [j Hj].
      assert (j <> k) by (intros ->; congruence).
      apply list_elem_of_lookup.
      destruct (decide (j < k)%nat).
      * exists j. by rewrite list_lookup_delete_lt.
      * exists (pred j). rewrite list_lookup_delete_ge by lia.
        by replace (S (pred j)) with j by lia.
  - apply findIndex_Some in Hf as (x0 & Hk & Hx0 & _). split.
    { by rewrite markFailed_ids. }
    intros y. split.
    + intros Hy. apply list_elem_of_lookup in Hy as [j Hj].
      destruct (decide (j = k)) as [->|Hne].
      * rewrite list_lookup_alter_eq, Hk in Hj. injection Hj as <-.
        right. split; [done|]. exists x0. split; [|done].
        apply list_elem_of_lookup. by exists k.
      * rewrite list_lookup_alter_ne in Hj by done. left. split.
        { apply list_elem_of_lookup. by exists j. }
        intros Hyi. apply Hne. apply (Hlookup j k y x0); [done|done|congruence].
    + intros [[Hy Hyi]|(_ & x & Hx & Hxi & ->)].
      * apply list_elem_of_lookup in Hy as [j Hj].
        apply list_elem_of_lookup. exists j.
        rewrite list_lookup_alter_ne; [done|]. intros ->. congruence.
      * apply list_elem_of_lookup in Hx as [j Hj].
        assert (j = k) as -> by (apply (Hlookup j k x x0); [done|done|congruence]).
        assert (x = x0) as -> by congruence.
        apply list_elem_of_lookup. exists k.
        by rewrite list_lookup_alter_eq, Hk.
Qed.

End CycleEffect.

Section CycleEffectClaims.

Variable host : Host.
Variable queueConfig : TelemetryQueueConfig.
Variable config : RetryManagerConfig.

(** The queue after a run of updates whose ids are pairwise distinct. *)
Lemma feedBack_effect outcomes : forall s,
  NoDup (id <$> queueOf s) ->
  NoDup (outcomeId <$> outcomes) ->
  let q := queueOf s in
  let q' := queueOf (feedBack host outcomes s) in
  NoDup (id <$> q') /\
  (forall y, y ∈ q' ->
     (y ∈ q /\ id y ∉ (outcomeId <$> outcomes)) \/
     (exists o x now, o ∈ outcomes /\ success o = false /\ x ∈ q /\
                      id x = outcomeId o /\
                      y = markFailed now (outcomeError o) x)) /\
  (forall y, y ∈ q -> id y ∉ (outcomeId <$> outcomes) -> y ∈ q') /\
  (forall o x, o ∈ outcomes -> success o = false -> x ∈ q ->
     id x = outcomeId o ->
     exists now, markFailed now (outcomeError o) x ∈ q').
Proof.
  induction outcomes as [|o0 rest IH]; intros s Hnd Hos q q'.
  { split; [done|]. split; [intros y Hy; left; split; [done|]|].
    - by intros ?%elem_of_nil.
    - split; [done|]. by intros o x ?%elem_of_nil. }
  cbn [fmap list_fmap] in Hos. apply NoDup_cons in Hos as [Hfresh Hrest].
  set (s1 := run (updateEventAfterRetry host (outcomeId o0) (success o0)
                    (outcomeError o0)) s).
  destruct (updateEventAfterRetry_elem_of host (outcomeId o0) (success o0)
              (outcomeError o0) s Hnd) as [Hnd1 Hstep].
  fold s1 in Hnd1, Hstep. fold q in Hstep.
  destruct (IH s1 Hnd1 Hrest) as (Hnd' & Hfrom & Hkeep & Hfail).
  assert (Hq' : q' = queueOf (feedBack host rest s1)) by reflexivity.
  rewrite <- Hq' in Hnd', Hfrom, Hkeep, Hfail.
  split; [done|]. split; [|split].
  - intros y Hy. destruct (Hfrom y Hy) as [[Hy1 Hyr]|(o & x & now & Ho & Hno & Hx & Hxi & ->)].
    + apply Hstep in Hy1 as [[Hyq Hyi]|(Hno & x & Hx & Hxi & ->)].
      * left. split; [done|]. cbn. intros [?|?]%elem_of_cons; done.
      * right. exists o0, x, (clock host (dateNowCalls s)).
        split; [by left|done].
    + apply Hstep in Hx as [[Hxq Hxi0]|(_ & x' & Hx' & Hxi' & ->)].
      * right. exists o, x, now. split; [by right|done].
      * exfalso. apply Hfresh. cbn in Hxi. rewrite <- Hxi', Hxi.
        by apply list_elem_of_fmap_2.
  - intros y Hy Hyo. cbn in Hyo. apply not_elem_of_cons in Hyo as [Hy0 Hyr].
    apply Hkeep; [|done]. apply Hstep. by left.
  - intros o x Ho Hno Hx Hxi. apply elem_of_cons in Ho as [->|Ho].
    + exists (clock host (dateNowCalls s)). apply Hkeep.
      * apply Hstep. right. split; [done|]. by exists x.
      * cbn. by rewrite Hxi.
    + apply (Hfail o x Ho Hno); [|done]. apply Hstep. left. split; [done|].
      intros Heq. apply Hfresh. rewrite <- Heq, Hxi.
      by apply list_elem_of_fmap_2.
Qed.

Lemma batchResults_all_fulfilled batch : forall n,
  (forall j e, batch !! j = Some e ->
     conversionThrows host (n + j) (event e) = false) ->
  Forall (fun r => exists v, r = fulfilled v) (batchResults host n batch) /\
  outcomeId <$> batchOutcomes host n batch = id <$> batch.
Proof.
  induction batch as [|x rest IH]; intros n Hall; [by split|].
  destruct (IH (S n)) as [Hrest Hids].
  { intros j e Hj. specialize (Hall (S j) e Hj).
    by rewrite Nat.add_succ_r in Hall. }
  specialize (Hall 0%nat x eq_refl). rewrite Nat.add_0_r in Hall.
  rewrite batchOutcomes_cons. cbn [batchResults].
  destruct (settledOf_cases host n x)
    as [(_ & _ & Hx)|[(_ & _ & text & Hx)|(_ & Hconv & _)]];
    [| |congruence]; rewrite Hx;
    (split; [apply Forall_cons; split; [by eexists|done]|]);
    cbn; by rewrite Hids.
Qed.

(** X18.  How the tasks of a batch settle and what the result loop does
    with them.  The settle-all join holds one result per batch event, in
    batch order: fulfilled with a success record when the send resolved,
    fulfilled with a failure record carrying the error text when the send
    rejected and the text could be obtained, and rejected when obtaining
    the text threw.  [processBatch] hands every batch event to the
    transport, and its effect on the store is that of one
    [updateEventAfterRetry] per fulfilled result, in order; a rejected
    result is skipped.  When no string conversion throws, every result is
    fulfilled and every event of the batch is fed back once. *)
Theorem processBatch_settles_every_task
    (batch : list QueuedTelemetryEvent) (s : Sys) :
  let first := length (sent s) in
  let results := result (allSettled (dispatchTask host) batch) s in
  let s' := run (processBatch host config batch) s in
  length results = length batch /\
  (forall j e, batch !! j = Some e ->
     results !! j = Some
       match transport host (first + j) (event e) with
       | Normal _ =>
           fulfilled {| outcomeId := id e; success := true;
                        outcomeError := None |}
       | Throw thrown =>
           match errorText thrown with
           | Normal text =>
               fulfilled {| outcomeId := id e; success := false;
                            outcomeError := Some text |}
           | Throw raised => rejected raised
           end
       end) /\
  sent s' = sent s ++ (event <$> batch) /\
  storeView s' = storeView (feedBack host (fulfilledValues results) s) /\
  ((forall j e, batch !! j = Some e ->
      conversionThrows host (first + j) (event e) = false) ->
   Forall (fun r => exists v, r = fulfilled v) results /\
   outcomeId <$> fulfilledValues results = id <$> batch).
Proof.
  intros first results s'.
  assert (Hres : results = batchResults host first batch).
  { unfold results, result. by rewrite allSettled_dispatch. }
  rewrite Hres. split; [apply batchResults_length|]. split.
  { intros j e Hj. by rewrite batchResults_lookup, Hj. }
  split; [apply (processBatch_sent host config)|].
  split; [apply processBatch_storeView|].
  apply batchResults_all_fulfilled.
Qed.

Lemma notifyQueueSizeChange_queueOf s :
  queueOf (run (notifyQueueSizeChange queueConfig config) s) = queueOf s.
Proof.
  rewrite notifyQueueSizeChange_eq. by destruct (onQueueSizeChange config).
Qed.

Lemma checkConnectionStatus_queueOf s :
  queueOf (run (checkConnectionStatus host config) s) = queueOf s.
Proof.
  apply queueOf_globalState.
  by destruct (checkConnectionStatus_store host config s).
Qed.

End CycleEffectClaims.

Section CycleOutcome.

Variable host : Host.
Variable queueConfig : TelemetryQueueConfig.
Variable config : RetryManagerConfig.

(** The stored queue after a cycle is the pruned queue with one update per
    eligible event applied in order. *)
Lemma processQueue_queueOf (s : Sys) :
  isProcessing s = false ->
  1 <= batchSize config ->
  let s1 := run (pruneFailedEvents host queueConfig) (set_isProcessing true s) in
  let eligible := result (getEventsForRetry host queueConfig) s1 in
  let s2 := run (getEventsForRetry host queueConfig) s1 in
  exists s',
    processQueue host queueConfig config s = Some s' /\
    queueOf s' =
    queueOf (feedBack host (batchOutcomes host (length (sent s)) eligible) s2).
Proof.
  intros Hguard Hsize s1 eligible s2.
  assert (Hsent2 : sent s2 = sent s).
  { transitivity (sent s1); [reflexivity|].
    pose proof (pruneFailedEvents_view host queueConfig
                  (set_isProcessing true s)) as Hv1.
    fold s1 in Hv1. unfold managerView in Hv1. by injection Hv1. }
  pose proof (processQueue_shape host queueConfig config s Hguard Hsize)
    as Hshape.
  cbv zeta in Hshape. fold s1 in Hshape. fold eligible in Hshape.
  fold s2 in Hshape.
  destruct Hshape as [[Hempty Hrun]|(Hne & batches & Hconcat & Hrun)].
  - eexists. split; [exact Hrun|]. by rewrite Hempty.
  - eexists. split; [exact Hrun|].
    transitivity (queueOf (run (processBatches host config batches) s2)).
    { change (queueOf (set_isProcessing false ?x)) with (queueOf x).
      by rewrite notifyQueueSizeChange_queueOf, checkConnectionStatus_queueOf. }
    apply storeView_queueOf.
    by rewrite processBatches_storeView, Hsent2, Hconcat.
Qed.

(** X13.  With distinct ids, a cycle that acquires the guard (batch size at
    least 1) leaves a queue with distinct ids in which: every event that was
    not eligible after pruning is still present unchanged; every eligible
    event whose send resolved is gone; every eligible event whose send was
    rejected with a value whose error text could be obtained is present
    with its retry count raised by one and that text recorded; every
    eligible event whose send was rejected with a value whose string
    conversion throws is present unchanged, its failure not recorded; and
    no event has a retry count above [maxRetries]. *)
Theorem cycle_settles_each_eligible_event (s : Sys) :
  NoDup (id <$> queueOf s) ->
  isProcessing s = false ->
  1 <= batchSize config ->
  let s1 := run (pruneFailedEvents host queueConfig) (set_isProcessing true s) in
  let pruned := queueOf s1 in
  let eligible := result (getEventsForRetry host queueConfig) s1 in
  let first := length (sent s) in
  exists s',
    processQueue host queueConfig config s = Some s' /\
    NoDup (id <$> queueOf s') /\
    (forall y, y ∈ pruned -> y ∉ eligible -> y ∈ queueOf s') /\
    (forall j e, eligible !! j = Some e ->
       match transport host (first + j) (event e) with
       | Normal _ => id e ∉ (id <$> queueOf s')
       | Throw thrown =>
           match errorText thrown with
           | Normal text =>
               exists now, markFailed now (Some text) e ∈ queueOf s'
           | Throw _ => e ∈ queueOf s'
           end
       end) /\
    (forall y, y ∈ queueOf s' ->
       Z.of_nat (retryCount y) <= maxRetries queueConfig).
Proof.
  intros Hnd Hguard Hsize s1 pruned eligible first.
  destruct (processQueue_queueOf s Hguard Hsize) as (s' & Hrun & Hq').
  fold s1 in Hq'. fold eligible in Hq'. fold first in Hq'.
  set (s2 := run (getEventsForRetry host queueConfig) s1) in Hq'.
  set (outcomes := batchOutcomes host first eligible) in Hq'.
  assert (Hq2 : queueOf s2 = pruned) by reflexivity.
  assert (Hpruned : pruned =
            filter (fun item => Z.of_nat (retryCount item) <
                                maxRetries queueConfig) (queueOf s)).
  { unfold pruned, s1, run. rewrite pruneFailedEvents_eq. cbv zeta. cbn [snd].
    change (queueOf (set_isProcessing true s)) with (queueOf s).
    destruct (Nat.eqb_spec
                (length (filter (fun item => Z.of_nat (retryCount item) <
                                             maxRetries queueConfig) (queueOf s)))
                (length (queueOf s))) as [Heq|Hne].
    - symmetry. by apply filter_length_eq.
    - apply (queueOf_save host). }
  assert (Hndp : NoDup (id <$> pruned)).
  { rewrite Hpruned. eapply sublist_NoDup; [exact Hnd|].
    apply fmap_sublist, sublist_filter. }
  assert (Helig : eligible =
            filter (fun item => readyForRetry queueConfig
                                  (clock host (dateNowCalls s1)) item) pruned).
  { unfold eligible, result. by rewrite getEventsForRetry_eq. }
  assert (Hsub : eligible `sublist_of` pruned)
    by (rewrite Helig; apply sublist_filter).
  assert (Hnde : NoDup (id <$> eligible)).
  { eapply sublist_NoDup; [exact Hndp|]. by apply fmap_sublist. }
  assert (Hoids : (outcomeId <$> outcomes) `sublist_of` (id <$> eligible))
    by apply batchOutcomes_ids.
  assert (Hndo : NoDup (outcomeId <$> outcomes))
    by (by eapply sublist_NoDup).
  assert (Hfrom_task : forall o, o ∈ outcomes ->
            exists j e, eligible !! j = Some e /\
                        settledOf host (first + j) e = fulfilled o /\
                        outcomeId o = id e).
  { intros o Ho. apply batchOutcomes_elem_of in Ho as (j & e & Hj & Hs).
    exists j, e. split; [done|]. split; [done|]. by eapply settledOf_id. }
  assert (Hsame : forall j k x y, eligible !! j = Some x ->
            eligible !! k = Some y -> id x = id y -> j = k /\ x = y).
  { intros j k x y Hj Hk Heq.
    assert (j = k) as ->; [|split; [done|congruence]].
    apply (NoDup_lookup (id <$> eligible) j k (id x)); [done| |];
      rewrite list_lookup_fmap; [by rewrite Hj|by rewrite Hk, Heq]. }
  assert (Honly : forall x y, x ∈ pruned -> y ∈ pruned -> id x = id y -> x = y).
  { intros x y Hx Hy Heq.
    apply list_elem_of_lookup in Hx as [j Hj].
    apply list_elem_of_lookup in Hy as [k Hk].
    assert (j = k); [|congruence].
    apply (NoDup_lookup (id <$> pruned) j k (id x)); [done| |];
      rewrite list_lookup_fmap; [by rewrite Hj|by rewrite Hk, Heq]. }
  destruct (feedBack_effect host outcomes s2) as (Hnd' & Hfrom & Hkeep & Hfail);
    [by rewrite Hq2|done|].
  rewrite <- ?Hq', ?Hq2 in Hnd', Hfrom, Hkeep, Hfail.
  assert (Hbelow : forall x, x ∈ pruned ->
            Z.of_nat (retryCount x) < maxRetries queueConfig).
  { intros x Hx. rewrite Hpruned in Hx.
    by apply list_elem_of_filter in Hx as [? _]. }
  exists s'. split; [done|]. split; [done|]. split; [|split].
  - intros y Hy Hne. apply Hkeep; [done|].
    intros Hin. apply list_elem_of_fmap in Hin as (o & Hid & Ho).
    destruct (Hfrom_task o Ho) as (j & e & Hj & _ & Hoe).
    apply Hne. rewrite (Honly y e); [by eapply list_elem_of_lookup_2|done| |].
    + eapply elem_of_sublist; [|done]. by eapply list_elem_of_lookup_2.
    + congruence.
  - intros j e Hj.
    assert (Hein : e ∈ pruned).
    { eapply elem_of_sublist; [|done]. by eapply list_elem_of_lookup_2. }
    assert (Hset : forall o, settledOf host (first + j) e = fulfilled o ->
              o ∈ outcomes).
    { intros o Ho. apply batchOutcomes_elem_of. by exists j, e. }
    pose proof (eq_refl (settledOf host (first + j) e)) as Hs.
    unfold settledOf at 2 in Hs.
    destruct (transport host (first + j) (event e)) as [|thrown];
      [|destruct (errorText thrown) as [text|raised]].
    + pose proof (Hset _ Hs) as Hmine.
      intros Hin. apply list_elem_of_fmap in Hin as (y & Hid & Hy).
      destruct (Hfrom y Hy) as [[_ Hyo]|(o & x & now & Hoo & Hno & Hx & Hxi & ->)].
      * apply Hyo. rewrite <- Hid.
        by apply (list_elem_of_fmap_2 outcomeId) in Hmine.
      * cbn in Hid.
        destruct (Hfrom_task o Hoo) as (k & e' & Hk & Hso & Hoe).
        destruct (Hsame j k e e' Hj Hk) as [<- <-]; [congruence|].
        rewrite Hso in Hs. injection Hs as ->. done.
    + apply (Hfail _ e (Hset _ Hs)); [done|done|done].
    + apply Hkeep; [done|].
      intros Hin. apply list_elem_of_fmap in Hin as (o & Hid & Ho).
      destruct (Hfrom_task o Ho) as (k & e' & Hk & Hso & Hoe).
      destruct (Hsame j k e e' Hj Hk) as [<- <-]; [congruence|].
      rewrite Hso in Hs. done.
  - intros y Hy.
    destruct (Hfrom y Hy) as [[Hyp _]|(o & x & now & _ & _ & Hx & _ & ->)].
    + apply Hbelow in Hyp. lia.
    + apply Hbelow in Hx. cbn. lia.
Qed.

End CycleOutcome.

Section Timer.

Variable host : Host.
Variable queueConfig : TelemetryQueueConfig.
Variable config : RetryManagerConfig.

Lemma timerCall_consistent c m :
  timerConsistent config m -> timerConsistent config (timerCall config c m).
Proof.
  unfold timerConsistent. intros Hm.
  destruct c; cbn [timerCall]; unfold start, stop;
    destruct (retryTimer m) as [handle|] eqn:Ht; cbn; rewrite ?Ht; try done.
  - rewrite Hm. split; [done|lia].
  - destruct Hm as [-> _]. cbn. by rewrite decide_False by (by intros []).
Qed.

Lemma timerCall_state c m :
  managerState (timerCall config c m) = managerState m.
Proof.
  destruct c; cbn [timerCall]; unfold start, stop;
    by destruct (retryTimer m).
Qed.

Lemma timerCall_retryTimer c m :
  is_Some (retryTimer (timerCall config c m)) <-> c = CallStart.
Proof.
  destruct c; cbn [timerCall]; unfold start, stop;
    destruct (retryTimer m) as [handle|] eqn:Ht; cbn; rewrite ?Ht;
    split; try done; by intros [? [=]].
Qed.

(** X14.  However [start] and [stop] are called on a newly constructed
    manager, it never has more than one active interval: exactly one, with
    period [retryIntervalMs], when the last call was [start], and none when
    it was [stop] or when nothing was called.  The calls themselves run no
    cycle; when a period elapses the cycle runs once if the timer is
    active and not at all otherwise. *)
Theorem timer_started_at_most_once (cs : list TimerCall) (s : Sys) :
  let m := timerCalls config cs (constructed s) in
  managerState m = s /\
  (is_Some (retryTimer m) <-> last cs = Some CallStart) /\
  (length (intervals m) <= 1)%nat /\
  (last cs = Some CallStart ->
   (exists handle, intervals m = [(handle, retryIntervalMs config)]) /\
   periodElapses host queueConfig config m =
     processQueue host queueConfig config s) /\
  (last cs <> Some CallStart ->
   intervals m = [] /\
   periodElapses host queueConfig config m = Some s).
Proof.
  intros m.
  assert (Hinv : timerConsistent config m /\ managerState m = s /\
                 (is_Some (retryTimer m) <-> last cs = Some CallStart)).
  { unfold m. clear m. induction cs as [|c cs IH] using rev_ind.
    - split; [done|]. split; [done|]. cbn. split; [by intros [? ?]|done].
    - unfold timerCalls in *. rewrite foldl_app. cbn [foldl].
      destruct IH as (Hc & Hs & _).
      split; [by apply timerCall_consistent|].
      split; [by rewrite timerCall_state|].
      rewrite last_snoc, timerCall_retryTimer. split; congruence. }
  destruct Hinv as (Hc & Hs & Hlast).
  split; [done|]. split; [done|].
  unfold timerConsistent in Hc. unfold periodElapses. rewrite Hs.
  destruct (retryTimer m) as [handle|] eqn:Ht.
  - destruct Hc as [Hi _]. rewrite Hi. cbn [length fire].
    split; [lia|]. split.
    + intros _. split; [by exists handle|].
      by destruct (processQueue host queueConfig config s).
    + intros Hno. exfalso. apply Hno, Hlast. by exists handle.
  - rewrite Hc. cbn [length fire]. split; [lia|]. split.
    + intros Hyes. apply Hlast in Hyes as [? [=]].
    + done.
Qed.

End Timer.

(** * The status monitor *)

Section Monitor.

Variable host : Host.

Lemma showNotification_fields message severity m :
  let m' := TSM.showNotification host message severity m in
  TSM.statusBarItem m' = TSM.statusBarItem m /\
  TSM.isConnected m' = TSM.isConnected m /\
  TSM.queueSize m' = TSM.queueSize m /\
  TSM.isAboveThreshold m' = TSM.isAboveThreshold m.
Proof.
  unfold TSM.showNotification. cbv zeta. by destruct (_ <? _).
Qed.

Lemma updateStatusBar_fields m :
  let m' := TSM.updateStatusBar m in
  TSM.isConnected m' = TSM.isConnected m /\
  TSM.queueSize m' = TSM.queueSize m /\
  TSM.isAboveThreshold m' = TSM.isAboveThreshold m /\
  TSM.lastNotificationTime m' = TSM.lastNotificationTime m /\
  TSM.dateNowCalls m' = TSM.dateNowCalls m /\
  TSM.shown m' = TSM.shown m.
Proof.
  unfold TSM.updateStatusBar. cbv zeta. by destruct (_ || _).
Qed.

Lemma updateStatusBar_reflects m :
  TSM.barReflectsFields (TSM.updateStatusBar m).
Proof.
  unfold TSM.barReflectsFields, TSM.updateStatusBar, TSM.getTooltip.
  destruct (negb (TSM.isConnected m) || (0 <? TSM.queueSize m)) eqn:Hshow;
    cbn; rewrite Hshow; by cbn.
Qed.

Lemma showNotification_reflects message severity m :
  TSM.barReflectsFields m ->
  TSM.barReflectsFields (TSM.showNotification host message severity m).
Proof.
  unfold TSM.barReflectsFields, TSM.showNotification. cbv zeta.
  unfold TSM.updateStatusBar, TSM.getTooltip.
  destruct (clock host (TSM.dateNowCalls m) - TSM.lastNotificationTime m
            <? TSM.notificationInterval); cbn;
    destruct (negb (TSM.isConnected m) || (0 <? TSM.queueSize m));
    intros Hbar; exact Hbar.
Qed.

Lemma deliver_reflects n m : TSM.barReflectsFields (TSM.deliver host n m).
Proof.
  destruct n as [connected|size above]; cbn [TSM.deliver];
    unfold TSM.onConnectionStatusChange, TSM.onQueueSizeChange; cbv zeta;
    repeat match goal with
           | |- context [if ?b then _ else _] =>
               lazymatch b with
               | context [if _ then _ else _] => fail
               | _ => destruct b
               end
           end;
    try apply showNotification_reflects; apply updateStatusBar_reflects.
Qed.

Lemma deliver_fields n m :
  let m' := TSM.deliver host n m in
  TSM.isConnected m' =
    match n with
    | ConnectionStatusChanged connected => connected
    | QueueSizeChanged _ _ => TSM.isConnected m
    end /\
  (TSM.queueSize m', TSM.isAboveThreshold m') =
    match n with
    | ConnectionStatusChanged _ => (TSM.queueSize m, TSM.isAboveThreshold m)
    | QueueSizeChanged size above => (Z.of_nat size, above)
    end.
Proof.
  cbv zeta.
  destruct n as [connected|size above]; cbn [TSM.deliver];
    unfold TSM.onConnectionStatusChange, TSM.onQueueSizeChange; cbv zeta.
  - set (m1 := TSM.updateStatusBar (TSM.set_isConnected connected m)).
    destruct (updateStatusBar_fields (TSM.set_isConnected connected m))
      as (Hc & Hq & Ha & _). fold m1 in Hc, Hq, Ha.
    destruct (TSM.isConnected m && negb connected);
      [|destruct (negb (TSM.isConnected m) && connected)];
      try (destruct (showNotification_fields
                       TSM.connectionLost TSM.warning m1)
             as (_ & -> & -> & ->));
      try (destruct (showNotification_fields
                       TSM.connectionRestored TSM.info m1)
             as (_ & -> & -> & ->));
      by rewrite Hc, Hq, Ha.
  - set (m1 := TSM.updateStatusBar (TSM.set_queue (Z.of_nat size) above m)).
    destruct (updateStatusBar_fields
                (TSM.set_queue (Z.of_nat size) above m))
      as (Hc & Hq & Ha & _). fold m1 in Hc, Hq, Ha.
    destruct (negb (TSM.isAboveThreshold m) && above);
      [|destruct (TSM.isAboveThreshold m && negb above &&
                  (Z.of_nat size =? 0))];
      try (destruct (showNotification_fields
                       (TSM.queueBuildingUp (Z.of_nat size)) TSM.warning m1)
             as (_ & -> & -> & ->));
      try (destruct (showNotification_fields
                       TSM.queueCleared TSM.info m1)
             as (_ & -> & -> & ->));
      by rewrite Hc, Hq, Ha.
Qed.

Lemma deliverAll_snoc l n m :
  TSM.deliverAll host (l ++ [n]) m =
  TSM.deliver host n (TSM.deliverAll host l m).
Proof. unfold TSM.deliverAll. by rewrite foldl_app. Qed.

Lemma statusCallbacks_snoc l n :
  statusCallbacks (l ++ [n]) =
  statusCallbacks l ++
  match n with
  | ConnectionStatusChanged b => [b]
  | QueueSizeChanged _ _ => []
  end.
Proof. unfold statusCallbacks. rewrite omap_app. by destruct n. Qed.

Lemma sizeCallbacks_snoc l n :
  sizeCallbacks (l ++ [n]) =
  sizeCallbacks l ++
  match n with
  | ConnectionStatusChanged _ => []
  | QueueSizeChanged size above => [(size, above)]
  end.
Proof. unfold sizeCallbacks. rewrite omap_app. by destruct n. Qed.

(** X15.  The status bar follows the callbacks and nothing else.  After
    any sequence of callbacks the monitor's connection flag is the argument
    of the last status callback, its queue size and threshold flag are the
    arguments of the last queue-size callback (the fields are kept when no
    such callback came), and the status bar item is shown exactly when the
    monitor is disconnected or the queue size is positive; while it is
    shown, its text, tooltip and background are the ones computed from the
    current fields.  This holds from every monitor state once a callback
    has been delivered, and for the constructed and initialized monitor
    from the start; the notification rate limit has no effect on it. *)
Theorem status_bar_follows_callbacks
    (l : list Notification) (m : TSM.Monitor) (status : option bool) :
  let m' := TSM.deliverAll host l m in
  TSM.isConnected m' = default (TSM.isConnected m) (last (statusCallbacks l)) /\
  (TSM.queueSize m', TSM.isAboveThreshold m') =
    default (TSM.queueSize m, TSM.isAboveThreshold m)
      (prod_map Z.of_nat Datatypes.id <$> last (sizeCallbacks l)) /\
  (l <> [] \/ TSM.barReflectsFields m ->
   TSM.visible (TSM.statusBarItem m') =
     negb (TSM.isConnected m') || (0 <? TSM.queueSize m') /\
   (TSM.visible (TSM.statusBarItem m') = true ->
    TSM.statusBarItem m' = TSM.statusBarItem (TSM.updateStatusBar m'))) /\
  TSM.barReflectsFields (TSM.initialize status TSM.constructedMonitor).
Proof.
  cbv zeta. split; [|split; [|split]].
  - induction l as [|n l IH] using rev_ind; [done|].
    rewrite deliverAll_snoc, statusCallbacks_snoc.
    destruct (deliver_fields n (TSM.deliverAll host l m)) as [-> _].
    destruct n; [by rewrite last_snoc|by rewrite app_nil_r].
  - induction l as [|n l IH] using rev_ind; [done|].
    rewrite deliverAll_snoc, sizeCallbacks_snoc.
    destruct (deliver_fields n (TSM.deliverAll host l m)) as [_ ->].
    destruct n; [by rewrite app_nil_r|by rewrite last_snoc].
  - intros Hstart. change (TSM.barReflectsFields (TSM.deliverAll host l m)).
    destruct l as [|n l _] using rev_ind.
    + by destruct Hstart.
    + rewrite deliverAll_snoc. apply deliver_reflects.
  - destruct status as [connected|]; apply updateStatusBar_reflects.
Qed.






End Monitor.

(** * Witnesses of the further properties *)

(** Witness of X6: the mixed calls from the empty store, under the steady
    clock. *)
Lemma queue_ordered_by_enqueue_time_witness :
  clockMonotone steadyHost /\
  enqueueOrdered steadyHost initialSys /\
  let s' := run (queueCalls steadyHost smallQueueConfig mixedCalls) initialSys in
  enqueueOrdered steadyHost s' /\
  timestamp <$> queueOf s' = [1700000000001; 1700000000010].
Proof.
  assert (Hmono : clockMonotone steadyHost) by (intros m n Hle; cbn; lia).
  assert (Hempty : enqueueOrdered steadyHost initialSys)
    by (split; [apply SSorted_nil|apply Forall_nil_2]).
  destruct (queue_ordered_by_enqueue_time steadyHost smallQueueConfig
              mixedCalls initialSys Hmono Hempty) as [Hordered _].
  split; [exact Hmono|]. split; [exact Hempty|].
  split; [exact Hordered|by vm_compute].
Defined.

(** Witness of X7: a failed retry, a successful one and a pruning on the
    queue left by the four enqueues. *)
Lemma queue_events_only_removed_or_aged_witness :
  Forall (fun c => isEnqueue c = false) retryCalls /\
  let q := queueOf afterFourCalls in
  let q' := queueOf (run (queueCalls steadyHost smallQueueConfig retryCalls)
                       afterFourCalls) in
  (identity <$> q') `sublist_of` (identity <$> q) /\
  retryCount <$> q' = [1; 0]%nat.
Proof.
  assert (Hcalls : Forall (fun c => isEnqueue c = false) retryCalls)
    by (repeat constructor).
  destruct (queue_events_only_removed_or_aged steadyHost smallQueueConfig
              retryCalls afterFourCalls Hcalls) as (Hsub & _ & _).
  split; [exact Hcalls|]. split; [exact Hsub|by vm_compute].
Defined.

(** Witness of X9: the middle event of the same queue, failed at clock
    value 1700000000012, is not returned by the call that follows. *)
Lemma failed_event_waits_out_backoff_witness :
  NoDup (id <$> queueOf afterFourCalls) /\
  clock steadyHost (dateNowCalls afterFourCalls) <> 0 /\
  exists item,
    queueOf afterFourCalls !! 1%nat = Some item /\
    id item = "1700000000006-r2"%string /\
    let s1 := run (updateEventAfterRetry steadyHost "1700000000006-r2" false
                     (Some "timeout"%string)) afterFourCalls in
    let failed := markFailed 1700000000012 (Some "timeout"%string) item in
    queueOf s1 !! 1%nat = Some failed /\
    failed ∉ result (getEventsForRetry steadyHost smallQueueConfig) s1.
Proof.
  split; [exact afterFourCalls_NoDup|].
  assert (Hclock : clock steadyHost (dateNowCalls afterFourCalls) <> 0)
    by (by vm_compute).
  split; [exact Hclock|].
  assert (Hitem : exists item, queueOf afterFourCalls !! 1%nat = Some item /\
                               id item = "1700000000006-r2"%string).
  { eexists. split; [by vm_compute|reflexivity]. }
  destruct Hitem as (item & Hk & Hid). exists item.
  split; [exact Hk|]. split; [exact Hid|].
  destruct (failed_event_waits_out_backoff steadyHost smallQueueConfig
              "1700000000006-r2" (Some "timeout"%string) afterFourCalls 1 item
              afterFourCalls_NoDup Hk Hid Hclock) as [Hfailed Hlater].
  split; [exact Hfailed|].
  apply Hlater.
  - eapply list_elem_of_lookup_2. exact Hfailed.
  - by vm_compute.
Defined.

(** Witness of X10: five failed retries of the middle event, with
    [maxRetries = 5]. *)
Lemma retries_are_bounded_witness :
  NoDup (id <$> queueOf afterFourCalls) /\
  exists item,
    queueOf afterFourCalls !! 1%nat = Some item /\
    id item = "1700000000006-r2"%string /\
    let s' := run (queueCalls steadyHost smallQueueConfig
                     (replicate 5 (CallUpdateEventAfterRetry
                                     "1700000000006-r2" false None)))
                  afterFourCalls in
    retryCount <$> queueOf s' = [0; 5; 0]%nat /\
    ("1700000000006-r2"%string
       ∉ (id <$> result (getEventsForRetry steadyHost smallQueueConfig) s')) /\
    (1 <= result (pruneFailedEvents steadyHost smallQueueConfig) s')%nat.
Proof.
  split; [exact afterFourCalls_NoDup|].
  assert (Hitem : exists item, queueOf afterFourCalls !! 1%nat = Some item /\
                               id item = "1700000000006-r2"%string /\
                               retryCount item = 0%nat).
  { eexists. split; [by vm_compute|]. split; reflexivity. }
  destruct Hitem as (item & Hk & Hid & Hcount). exists item.
  split; [exact Hk|]. split; [exact Hid|].
  destruct (retries_are_bounded steadyHost smallQueueConfig
              "1700000000006-r2" None afterFourCalls 1 5 item
              afterFourCalls_NoDup Hk Hid)
    as (item' & _ & _ & _ & _ & Hceiling).
  destruct Hceiling as (Hretry & _ & Hprune).
  { rewrite Hcount. cbn. lia. }
  split; [by vm_compute|]. split; [exact Hretry|exact Hprune].
Defined.

(** Witness of X12: the three queued events are sent once each, followed by
    the connectivity check. *)
Lemma cycle_sends_each_eligible_event_once_witness :
  isProcessing afterFourCalls = false /\
  1 <= batchSize observedConfig /\
  exists s' probe,
    processQueue steadyHost smallQueueConfig observedConfig afterFourCalls =
      Some s' /\
    isProcessing s' = false /\
    sent s' = sent afterFourCalls ++ (event <$> queueOf afterFourCalls) ++ probe.
Proof.
  assert (Hsize : 1 <= batchSize observedConfig) by (cbn; lia).
  split; [reflexivity|]. split; [exact Hsize|].
  destruct (cycle_sends_each_eligible_event_once steadyHost smallQueueConfig
              observedConfig afterFourCalls eq_refl Hsize)
    as (s' & probe & Hrun & Hguard & Hsent & _).
  assert (Heligible :
    result (getEventsForRetry steadyHost smallQueueConfig)
      (run (pruneFailedEvents steadyHost smallQueueConfig)
         (set_isProcessing true afterFourCalls)) =
    queueOf afterFourCalls) by (by vm_compute).
  rewrite Heligible in Hsent.
  exists s', probe. split; [exact Hrun|]. split; [exact Hguard|exact Hsent].
Defined.

(** Witness of X13: of the three queued events the first is sent and
    removed, the second, whose send rejects with a value that [String]
    cannot convert, stays as it was, and the third, whose send rejects with
    an [Error], stays with one retry recorded. *)
Lemma cycle_settles_each_eligible_event_witness :
  NoDup (id <$> queueOf afterFourCalls) /\
  isProcessing afterFourCalls = false /\
  1 <= batchSize observedConfig /\
  exists s',
    processQueue garbledHost smallQueueConfig observedConfig afterFourCalls =
      Some s' /\
    NoDup (id <$> queueOf s') /\
    id <$> queueOf s' = ["1700000000006-r2"; "1700000000009-r3"]%string /\
    retryCount <$> queueOf s' = [0; 1]%nat /\
    (forall y, y ∈ queueOf s' ->
       Z.of_nat (retryCount y) <= maxRetries smallQueueConfig).
Proof.
  assert (Hsize : 1 <= batchSize observedConfig) by (cbn; lia).
  split; [exact afterFourCalls_NoDup|]. split; [reflexivity|].
  split; [exact Hsize|].
  destruct (cycle_settles_each_eligible_event garbledHost smallQueueConfig
              observedConfig afterFourCalls afterFourCalls_NoDup eq_refl Hsize)
    as (s' & Hrun & Hnd & _ & _ & Hbound).
  assert (Hs' : (fun o => (fmap id ∘ queueOf <$> o,
                           fmap retryCount ∘ queueOf <$> o))
                  (processQueue garbledHost smallQueueConfig observedConfig
                     afterFourCalls) =
                (Some ["1700000000006-r2"; "1700000000009-r3"]%string,
                 Some [0; 1]%nat))
    by (by vm_compute).
  rewrite Hrun in Hs'. cbn in Hs'. injection Hs' as Hids Hcounts.
  exists s'. split; [exact Hrun|]. split; [exact Hnd|].
  split; [exact Hids|]. split; [exact Hcounts|exact Hbound].
Defined.
